(** * Elementary transform sequences (roboticstoolbox/robot/ETS.py)

    A shallow embedding of the [SuperETS] / [ETS] classes and the
    properties of evaluation, constant folding, the Jacobian and the
    Hessian that the specification states about them.

    Conventions of the embedding.
    - NumPy [float64] scalars are idealised as real numbers ([R]); rounding
      is outside the model, so matrix products are associative here and a
      numerical tolerance is an exact equation.
    - A 4x4 [ndarray] is the record [M44]; a 3-vector is [Vec3].
    - A Python exception is a [Raise e] result; every method that can raise
      returns a [result].
    - An [ETS] instance is its [data] list of [ets] named tuples. *)

From stdpp Require Import list.
From Stdlib Require Import Reals String Ascii Lia Lra.

Local Open Scope string_scope.
Local Open Scope list_scope.

(** ** Exceptions *)

Inductive exn : Type :=
  | TypeError | ValueError | IndexError | AttributeError
  | NameError | UnboundLocalError | LinAlgError | OverflowError.

Inductive result (A : Type) : Type :=
  | Ok (a : A)
  | Raise (e : exn).
Arguments Ok {A} a.
Arguments Raise {A} e.

Definition bind {A B} (c : result A) (k : A -> result B) : result B :=
  match c with
  | Ok a => k a
  | Raise e => Raise e
  end.

Notation "x <- c ;; k" := (bind c (fun x => k))
  (at level 100, c at next level, right associativity).

Definition is_ok {A} (c : result A) : bool :=
  match c with Ok _ => true | Raise _ => false end.

(** ** Homogeneous transforms *)

Record Vec3 : Type := mkV { vx : R; vy : R; vz : R }.

Record M44 : Type := mkM {
  m00 : R; m01 : R; m02 : R; m03 : R;
  m10 : R; m11 : R; m12 : R; m13 : R;
  m20 : R; m21 : R; m22 : R; m23 : R;
  m30 : R; m31 : R; m32 : R; m33 : R }.

(** A (3,3) array. *)
Record M33 : Type := mkM3 {
  r00 : R; r01 : R; r02 : R;
  r10 : R; r11 : R; r12 : R;
  r20 : R; r21 : R; r22 : R }.

Section Numeric.
Local Open Scope R_scope.

(** [np.eye(4)] *)
Definition eye4 : M44 :=
  mkM 1 0 0 0
      0 1 0 0
      0 0 1 0
      0 0 0 1.

(** [A @ B] on two (4,4) arrays *)
Definition matmul (A B : M44) : M44 :=
  mkM
   (m00 A * m00 B + m01 A * m10 B + m02 A * m20 B + m03 A * m30 B)
   (m00 A * m01 B + m01 A * m11 B + m02 A * m21 B + m03 A * m31 B)
   (m00 A * m02 B + m01 A * m12 B + m02 A * m22 B + m03 A * m32 B)
   (m00 A * m03 B + m01 A * m13 B + m02 A * m23 B + m03 A * m33 B)
   (m10 A * m00 B + m11 A * m10 B + m12 A * m20 B + m13 A * m30 B)
   (m10 A * m01 B + m11 A * m11 B + m12 A * m21 B + m13 A * m31 B)
   (m10 A * m02 B + m11 A * m12 B + m12 A * m22 B + m13 A * m32 B)
   (m10 A * m03 B + m11 A * m13 B + m12 A * m23 B + m13 A * m33 B)
   (m20 A * m00 B + m21 A * m10 B + m22 A * m20 B + m23 A * m30 B)
   (m20 A * m01 B + m21 A * m11 B + m22 A * m21 B + m23 A * m31 B)
   (m20 A * m02 B + m21 A * m12 B + m22 A * m22 B + m23 A * m32 B)
   (m20 A * m03 B + m21 A * m13 B + m22 A * m23 B + m23 A * m33 B)
   (m30 A * m00 B + m31 A * m10 B + m32 A * m20 B + m33 A * m30 B)
   (m30 A * m01 B + m31 A * m11 B + m32 A * m21 B + m33 A * m31 B)
   (m30 A * m02 B + m31 A * m12 B + m32 A * m22 B + m33 A * m32 B)
   (m30 A * m03 B + m31 A * m13 B + m32 A * m23 B + m33 A * m33 B).

(** [spatialmath.base.trotx], [troty], [trotz] with their default
    arguments: the homogeneous transform of a rotation about one axis. *)
Definition trotx (theta : R) : M44 :=
  mkM 1 0           0             0
      0 (cos theta) (- sin theta) 0
      0 (sin theta) (cos theta)   0
      0 0           0             1.

Definition troty (theta : R) : M44 :=
  mkM (cos theta)   0 (sin theta) 0
      0             1 0           0
      (- sin theta) 0 (cos theta) 0
      0             0 0           1.

Definition trotz (theta : R) : M44 :=
  mkM (cos theta) (- sin theta) 0 0
      (sin theta) (cos theta)   0 0
      0           0             1 0
      0           0             0 1.

(** The local [axis_func] closures of [ETS.tx], [ETS.ty], [ETS.tz]. *)
Definition tx_axis_func (eta : R) : M44 :=
  mkM 1 0 0 eta
      0 1 0 0
      0 0 1 0
      0 0 0 1.

Definition ty_axis_func (eta : R) : M44 :=
  mkM 1 0 0 0
      0 1 0 eta
      0 0 1 0
      0 0 0 1.

Definition tz_axis_func (eta : R) : M44 :=
  mkM 1 0 0 0
      0 1 0 0
      0 0 1 eta
      0 0 0 1.

(** [spatialmath.base.getunit]: radians pass through, degrees are
    converted, any other unit string is rejected. *)
Definition getunit (v : R) (unit : string) : result R :=
  if String.eqb unit "rad" then Ok v
  else if String.eqb unit "deg" then Ok (v * PI / 180)
  else Raise ValueError.

(** [np.cross] on two 3-vectors *)
Definition cross (a b : Vec3) : Vec3 :=
  mkV (vy a * vz b - vz a * vy b)
      (vz a * vx b - vx a * vz b)
      (vx a * vy b - vy a * vx b).

Definition vzero : Vec3 := mkV 0 0 0.

(** [T[:3, :3]], its transpose, product and determinant *)
Definition rot (A : M44) : M33 :=
  mkM3 (m00 A) (m01 A) (m02 A)
       (m10 A) (m11 A) (m12 A)
       (m20 A) (m21 A) (m22 A).

Definition eye3 : M33 :=
  mkM3 1 0 0
       0 1 0
       0 0 1.

Definition transpose33 (A : M33) : M33 :=
  mkM3 (r00 A) (r10 A) (r20 A)
       (r01 A) (r11 A) (r21 A)
       (r02 A) (r12 A) (r22 A).

Definition matmul33 (A B : M33) : M33 :=
  mkM3
   (r00 A * r00 B + r01 A * r10 B + r02 A * r20 B)
   (r00 A * r01 B + r01 A * r11 B + r02 A * r21 B)
   (r00 A * r02 B + r01 A * r12 B + r02 A * r22 B)
   (r10 A * r00 B + r11 A * r10 B + r12 A * r20 B)
   (r10 A * r01 B + r11 A * r11 B + r12 A * r21 B)
   (r10 A * r02 B + r11 A * r12 B + r12 A * r22 B)
   (r20 A * r00 B + r21 A * r10 B + r22 A * r20 B)
   (r20 A * r01 B + r21 A * r11 B + r22 A * r21 B)
   (r20 A * r02 B + r21 A * r12 B + r22 A * r22 B).

Definition det33 (A : M33) : R :=
  r00 A * (r11 A * r22 A - r12 A * r21 A)
  - r01 A * (r10 A * r22 A - r12 A * r20 A)
  + r02 A * (r10 A * r21 A - r11 A * r20 A).

(** [spatialmath.base.isR(R)]: the norm of [R @ R.T - I] is below the
    tolerance, here zero, and [det(R @ R.T) > 0]. *)
Definition isR (Rm : M33) : Prop :=
  matmul33 Rm (transpose33 Rm) = eye3 /\
  0 < det33 (matmul33 Rm (transpose33 Rm)).

(** [spatialmath.base.ishom(T, check=True)] on a (4,4) array: the rotation
    part passes [isR] and the last row is [0, 0, 0, 1]. *)
Definition ishom (A : M44) : Prop :=
  isR (rot A) /\ m30 A = 0 /\ m31 A = 0 /\ m32 A = 0 /\ m33 A = 1.
Definition vscale (a : Vec3) (k : R) : Vec3 := mkV (vx a * k) (vy a * k) (vz a * k).
Definition vsub (a b : Vec3) : Vec3 := mkV (vx a - vx b) (vy a - vy b) (vz a - vz b).

End Numeric.

(** Comparisons of reals, as the tests of the validator use them. *)
#[global] Instance R_eq_dec : EqDecision R := Req_dec_T.
#[global] Instance Rlt_decision (x y : R) : Decision (x < y)%R := Rlt_dec x y.
#[global] Instance M33_eq_dec : EqDecision M33.
Proof. solve_decision. Defined.
#[global] Instance ishom_dec (A : M44) : Decision (ishom A).
Proof. unfold ishom, isR. apply _. Defined.

(** [SE3(T)] on a (4,4) array: the constructor of [spatialmath] validates
    its argument with [ishom] and raises [ValueError] on a matrix outside
    SE(3); the instance built is identified with its matrix. *)
Definition SE3 (A : M44) : result M44 :=
  if decide (ishom A) then Ok A else Raise ValueError.

(** ** The [ets] named tuple and the [ETS] container *)

Module ets.
(** [namedtuple('ETS3', 'eta axis_func axis joint T')]; a field that holds
    Python's [None] is [None] here. *)
Record t : Type := mk {
  eta : option R;
  axis_func : option (R -> M44);
  axis : option string;
  joint : bool;
  T : option M44 }.
End ets.

(** An instance of [SuperETS]: the [UserList] attribute [data]. *)
Record ETS : Type := mkETS { data : list ets.t }.

(** What a caller may pass as [axis_func] to the constructor. *)
Inductive pyobj : Type :=
  | PyNone
  | PyArray (A : M44)
  | PyCallable (f : R -> M44)
  | PyOther.

(** [SuperETS.__init__(self, axis_func=None, axis=None, eta=None, unit='rad')] *)
Definition __init__ (axis_func : pyobj) (axis : option string)
    (eta : option R) (unit : string) : result ETS :=
  match axis_func, axis, eta with
  | PyNone, None, None => Ok (mkETS [])
  | PyArray T, _, _ =>
      Ok (mkETS [ets.mk eta None (Some "C") false (Some T)])
  | PyCallable f, _, None =>
      if negb (String.eqb unit "rad") then Raise ValueError
      else Ok (mkETS [ets.mk None (Some f) axis true None])
  | PyCallable f, _, Some v =>
      eta' <- getunit v unit ;;
      Ok (mkETS [ets.mk (Some eta') (Some f) axis false (Some (f eta'))])
  | _, _, _ => Raise ValueError
  end.

(** [ETS()] *)
Definition ETS_empty : ETS := mkETS [].

(** The six factories and [_CONST]. *)
Definition rx (eta : option R) (unit : string) : result ETS :=
  __init__ (PyCallable trotx) (Some "Rx") eta unit.
Definition ry (eta : option R) (unit : string) : result ETS :=
  __init__ (PyCallable troty) (Some "Ry") eta unit.
Definition rz (eta : option R) (unit : string) : result ETS :=
  __init__ (PyCallable trotz) (Some "Rz") eta unit.
Definition tx (eta : option R) : result ETS :=
  __init__ (PyCallable tx_axis_func) (Some "tx") eta "rad".
Definition ty (eta : option R) : result ETS :=
  __init__ (PyCallable ty_axis_func) (Some "ty") eta "rad".
Definition tz (eta : option R) : result ETS :=
  __init__ (PyCallable tz_axis_func) (Some "tz") eta "rad".
Definition _CONST (T : M44) : result ETS :=
  __init__ (PyArray T) None None "rad".

(** [__mul__] and [__imul__]: both build a fresh instance whose list is the
    concatenation of the operands' lists. *)
Definition __mul__ (self rest : ETS) : ETS := mkETS (data self ++ data rest).
Definition __imul__ (self rest : ETS) : ETS := mkETS (data self ++ data rest).

(** [__getitem__] at a non-negative integer index. *)
Definition __getitem__ (self : ETS) (i : nat) : result ETS :=
  match data self !! i with
  | Some d => Ok (mkETS [d])
  | None => Raise IndexError
  end.

(** [for et in self]: [UserList] iterates through [__getitem__], so every
    [et] is a length-one instance. *)
Definition iter (self : ETS) : list ETS :=
  map (fun d => mkETS [d]) (data self).

(** ** Properties of [SuperETS] *)

(** [self.data[0]] *)
Definition data0 (self : ETS) : result ets.t :=
  match data self with
  | d :: _ => Ok d
  | [] => Raise IndexError
  end.

Definition eta (self : ETS) : result (option R) :=
  d <- data0 self ;; Ok (ets.eta d).

Definition axis_func (self : ETS) : result (option (R -> M44)) :=
  d <- data0 self ;; Ok (ets.axis_func d).

Definition axis (self : ETS) : result (option string) :=
  d <- data0 self ;; Ok (ets.axis d).

Definition isjoint (self : ETS) : result bool :=
  d <- data0 self ;; Ok (ets.joint d).

(** [self.axis[0] == c]: subscripting [None] is a [TypeError], subscripting
    the empty string an [IndexError]. *)
Definition axis0_is (self : ETS) (c : ascii) : result bool :=
  a <- axis self ;;
  match a with
  | None => Raise TypeError
  | Some EmptyString => Raise IndexError
  | Some (String c0 _) => Ok (Ascii.eqb c0 c)
  end.

Definition isrevolute (self : ETS) : result bool := axis0_is self "R"%char.
Definition isprismatic (self : ETS) : result bool := axis0_is self "t"%char.
Definition isconstant (self : ETS) : result bool := axis0_is self "C"%char.

(** [UserList.__iadd__(self, other)] when [other] is an [int]: the method
    evaluates [list(other)], which raises. *)
Definition __iadd__int (self : ETS) (other : Z) : result ETS := Raise TypeError.

(** The loop of the [n] property; the counter is the local [n], the
    augmented assignment is applied to [et]. *)
Fixpoint n_loop (its : list ETS) (n : nat) : result nat :=
  match its with
  | [] => Ok n
  | et :: rest =>
      j <- isjoint et ;;
      if j then _ <- __iadd__int et 1 ;; n_loop rest n
      else n_loop rest n
  end.

Definition n (self : ETS) : result nat := n_loop (iter self) 0.

(** [[f(e) for e in xs]] for an [f] that may raise *)
Fixpoint mapM {A B} (f : A -> result B) (xs : list A) : result (list B) :=
  match xs with
  | [] => Ok []
  | x :: rest => y <- f x ;; ys <- mapM f rest ;; Ok (y :: ys)
  end.

(** [np.where(bs)[0]]: the positions that hold [True], ascending *)
Fixpoint where_from (i : nat) (bs : list bool) : list nat :=
  match bs with
  | [] => []
  | b :: rest => if b then i :: where_from (S i) rest else where_from (S i) rest
  end.

Definition joints (self : ETS) : result (list nat) :=
  bs <- mapM isjoint (iter self) ;; Ok (where_from 0 bs).

(** [''.join(['R' if self.isrevolute else 'P' for i in self.joints()])] *)
Definition config (self : ETS) : result string :=
  js <- joints self ;;
  cs <- mapM (fun _ : nat => r <- isrevolute self ;; Ok (if r then "R" else "P")) js ;;
  Ok (String.concat "" cs).

(** [T(self, q=None)].  A joint passes [q] to its axis function: an
    [axis_func] that is [None] is not callable ([TypeError]), and with
    [q = None] the rotations [trotx], [troty], [trotz] raise [TypeError].
    The closures of [tx], [ty], [tz] would instead store the [None] in an
    array of objects, which is no (4,4) array of numbers; the model has no
    value for it and gives [TypeError] there as well.  No caller in the
    class passes [None] to a joint. *)
Definition T (self : ETS) (q : option R) : result (option M44) :=
  j <- isjoint self ;;
  if j then
    f <- axis_func self ;;
    match f, q with
    | Some f, Some v => Ok (Some (f v))
    | _, _ => Raise TypeError
    end
  else
    d <- data0 self ;; Ok (ets.T d).

(** [A @ B] where [B] may be [None] *)
Definition matmul_obj (A : M44) (B : option M44) : result M44 :=
  match B with
  | Some B => Ok (matmul A B)
  | None => Raise TypeError
  end.

(** [spatialmath.base.getvector] on a Python list: the list itself when no
    dimension is asked for; with a dimension the test is
    [dim is not None and v and len(v) != dim], so a non-empty list of
    another length is a [ValueError] and the empty list passes. *)
Definition getvector (v : list R) (dim : option nat) : result (list R) :=
  match dim with
  | None => Ok v
  | Some d =>
      match v with
      | [] => Ok v
      | _ :: _ => if Nat.eqb (List.length v) d then Ok v else Raise ValueError
      end
  end.

(** The loop of [eval].  [q] is the list that [q.pop(0)] consumes from the
    front; [None] has no [pop] ([AttributeError]) and an exhausted list
    raises [IndexError].  The list is the caller's own object when a list
    was passed: the entries consumed are gone from it after the call. *)
Fixpoint eval_loop (its : list ETS) (q : option (list R)) (unit : string)
    (Tm : M44) : result M44 :=
  match its with
  | [] => Ok Tm
  | et :: rest =>
      j <- isjoint et ;;
      if j then
        match q with
        | None => Raise AttributeError
        | Some [] => Raise IndexError
        | Some (qj :: q') =>
            r <- isrevolute et ;;
            let qj' := if r && String.eqb unit "deg"
                       then (qj * (PI / 180))%R else qj in
            A <- T et (Some qj') ;;
            Tm' <- matmul_obj Tm A ;;
            eval_loop rest (Some q') unit Tm'
        end
      else
        A <- T et None ;;
        Tm' <- matmul_obj Tm A ;;
        eval_loop rest q unit Tm'
  end.

(** [eval(self, q=None, unit='rad')]: the loop, then [return SE3(T)]. *)
Definition eval (self : ETS) (q : option (list R)) (unit : string) : result M44 :=
  q' <- match q with
        | None => Ok None
        | Some v => v' <- getvector v None ;; Ok (Some v')
        end ;;
  Tm <- eval_loop (iter self) q' unit eye4 ;;
  SE3 Tm.

(** The loop of [compile]: [const] is the pending folded matrix, [acc] the
    sequence emitted so far. *)
Fixpoint compile_loop (its : list ETS) (const : option M44) (acc : ETS)
    : result ETS :=
  match its with
  | [] =>
      match const with
      | Some c => k <- _CONST c ;; Ok (__imul__ acc k)
      | None => Ok acc
      end
  | et :: rest =>
      j <- isjoint et ;;
      if j then
        acc' <- match const with
                | Some c => k <- _CONST c ;; Ok (__imul__ acc k)
                | None => Ok acc
                end ;;
        compile_loop rest None (__imul__ acc' et)
      else
        A <- T et None ;;
        match const with
        | None => compile_loop rest A acc
        | Some c => c' <- matmul_obj c A ;; compile_loop rest (Some c') acc
        end
  end.

Definition compile (self : ETS) : result ETS :=
  compile_loop (iter self) None ETS_empty.

(** ** The differential engine of [ETS] *)

(** One column of a (6,n) array: [J[:3, j]] and [J[3:, j]]. *)
Record Col6 : Type := mkC { lin : Vec3; ang : Vec3 }.

Definition czero : Col6 := mkC vzero vzero.

(** A (6,n) array is the list of its [n] columns; a (6,n,n) array [H] is
    the list, over [i], of the lists, over [j], of [H[:, i, j]]. *)
Definition zeros6 (n : nat) : list Col6 := replicate n czero.
Definition zeros6x (n m : nat) : list (list Col6) := replicate n (replicate m czero).

(** Reading a name that has no binding: a local that is assigned somewhere
    in the function body but not yet ([UnboundLocalError]), or a global that
    the module never defines or imports ([NameError]). *)
Definition unbound_local {A} (name : string) : result A := Raise UnboundLocalError.
Definition undefined_name {A} (name : string) : result A := Raise NameError.

(** [v[j]] on a list or a one-dimensional array *)
Definition index {A} (v : list A) (j : nat) : result A :=
  match v !! j with
  | Some x => Ok x
  | None => Raise IndexError
  end.

(** [J[:3, j] = v] and [J[3:, j] = v] *)
Definition set_lin (J : list Col6) (j : nat) (v : Vec3) : result (list Col6) :=
  c <- index J j ;; Ok (<[j := mkC v (ang c)]> J).
Definition set_ang (J : list Col6) (j : nat) (v : Vec3) : result (list Col6) :=
  c <- index J j ;; Ok (<[j := mkC (lin c) v]> J).

(** [H[:3, i, j] = v], [H[3:, i, j] = v] and reading [H[:, i, j]] *)
Definition H_get (H : list (list Col6)) (i j : nat) : result Col6 :=
  row <- index H i ;; index row j.
Definition H_set_lin (H : list (list Col6)) (i j : nat) (v : Vec3)
    : result (list (list Col6)) :=
  row <- index H i ;; row' <- set_lin row j v ;; Ok (<[i := row']> H).
Definition H_set_ang (H : list (list Col6)) (i j : nat) (v : Vec3)
    : result (list (list Col6)) :=
  row <- index H i ;; row' <- set_ang row j v ;; Ok (<[i := row']> H).

(** [U[:3, k]] for k = 0, 1, 2 *)
Definition col_n (U : M44) : Vec3 := mkV (m00 U) (m10 U) (m20 U).
Definition col_o (U : M44) : Vec3 := mkV (m01 U) (m11 U) (m21 U).
Definition col_a (U : M44) : Vec3 := mkV (m02 U) (m12 U) (m22 U).

(** [et.axis == s] *)
Definition axis_is (ax : option string) (s : string) : bool :=
  match ax with
  | Some a => String.eqb a s
  | None => false
  end.

(** [for x in xs: acc = f(acc, x)] for an [f] that may raise *)
Fixpoint foldM {A B} (f : A -> B -> result A) (acc : A) (xs : list B) : result A :=
  match xs with
  | [] => Ok acc
  | x :: rest => acc' <- f acc x ;; foldM f acc' rest
  end.

Section Differential.

(** [np.linalg.inv]: the inverse of a (4,4) array, or [LinAlgError]. *)
Variable inv : M44 -> result M44.

(** The column written for a joint, by [et.axis]; an axis name outside the
    six leaves the column as it is. *)
Definition jacob0_column (ax : option string) (U Tu : M44) (j : nat)
    (J : list Col6) : result (list Col6) :=
  let n := col_n U in
  let o := col_o U in
  let a := col_a U in
  let x := m03 Tu in
  let y := m13 Tu in
  let z := m23 Tu in
  if axis_is ax "Rz" then
    J1 <- set_lin J j (vsub (vscale o x) (vscale n y)) ;; set_ang J1 j a
  else if axis_is ax "Ry" then
    J1 <- set_lin J j (vsub (vscale n z) (vscale a x)) ;; set_ang J1 j o
  else if axis_is ax "Rx" then
    J1 <- set_lin J j (vsub (vscale a y) (vscale o z)) ;; set_ang J1 j n
  else if axis_is ax "tx" then
    J1 <- set_lin J j n ;; set_ang J1 j vzero
  else if axis_is ax "ty" then
    J1 <- set_lin J j o ;; set_ang J1 j vzero
  else if axis_is ax "tz" then
    J1 <- set_lin J j a ;; set_ang J1 j vzero
  else Ok J.

(** The loop of [jacob0] (source lines 684-730). *)
Fixpoint jacob0_loop (its : list ETS) (q : list R) (Tm U : M44) (j : nat)
    (J : list Col6) : result (list Col6) :=
  match its with
  | [] => Ok J
  | et :: rest =>
      jt <- isjoint et ;;
      if jt then
        f <- axis_func et ;;
        qj <- index q j ;;
        A <- match f with
             | Some f => Ok (f qj)
             | None => Raise TypeError
             end ;;
        let U' := matmul U A in
        Ui <- inv U' ;;
        let Tu := matmul Ui Tm in
        ax <- axis et ;;
        J' <- jacob0_column ax U' Tu j J ;;
        jacob0_loop rest q Tm U' (S j) J'
      else
        A <- T et None ;;
        U' <- matmul_obj U A ;;
        jacob0_loop rest q Tm U' j J
  end.

(** [jacob0(self, q=None, T=None)].  The first statement reads the local
    [offset], which has no binding on entry. *)
Definition jacob0 (self : ETS) (q : option (list R)) (Tm : option M44)
    : result (list Col6) :=
  offset <- unbound_local (A := option M44) "offset" ;;
  let offset := match offset with None => Some eye4 | Some o => Some o end in
  nj <- n self ;;
  q' <- match q with
        | Some v => getvector v (Some nj)
        | None => Raise TypeError
        end ;;
  Tm' <- match Tm with
         | None => eval self (Some q') "rad"
         | Some t => Ok t
         end ;;
  jacob0_loop (iter self) q' Tm' eye4 0 (zeros6 nj).

(** One pass of the inner loop body of [hessian0] (source lines 819-823). *)
Definition hessian0_step (J0 : list Col6) (j i : nat) (H : list (list Col6))
    : result (list (list Col6)) :=
  cj <- index J0 j ;;
  ci <- index J0 i ;;
  H1 <- H_set_lin H i j (cross (ang cj) (lin ci)) ;;
  H2 <- H_set_ang H1 i j (cross (ang cj) (ang ci)) ;;
  if negb (Nat.eqb i j) then
    c <- H_get H2 i j ;; H_set_lin H2 j i (lin c)
  else Ok H2.

(** The allocation and the two nested loops of [hessian0] (source lines
    814-825): [range(n)] is [seq 0 n], [range(j, n)] is [seq j (n - j)]. *)
Definition hessian0_loop (nj : nat) (J0 : list Col6) : result (list (list Col6)) :=
  foldM (fun H j => foldM (fun H i => hessian0_step J0 j i H) H (seq j (nj - j)))
        (zeros6x nj nj) (seq 0 nj).

(** [hessian0(self, q=None, J0=None)]: [self.q] is not an attribute of the
    class, [verifymatrix] is not a name of the module. *)
Definition hessian0 (self : ETS) (q : option (list R)) (J0 : option (list Col6))
    : result (list (list Col6)) :=
  nj <- n self ;;
  J <- match J0 with
       | None =>
           q' <- match q with
                 | None => Raise AttributeError
                 | Some v => getvector v (Some nj)
                 end ;;
           jacob0 self (Some q') None
       | Some J => _ <- undefined_name (A := unit) "verifymatrix" ;; Ok J
       end ;;
  hessian0_loop nj J.

End Differential.

(** ** Notions the statements use *)

(** Every element the constructor can build satisfies this: a joint has an
    [axis_func] and a non-empty axis name, a non-joint has its matrix [T]. *)
Definition wf_et (e : ets.t) : bool :=
  if ets.joint e then
    match ets.axis_func e, ets.axis e with
    | Some _, Some (String _ _) => true
    | _, _ => false
    end
  else
    match ets.T e with
    | Some _ => true
    | None => false
    end.

Definition wf (S : ETS) : bool := forallb wf_et (data S).

(** A rigid motion: a matrix of SE(3) whose rotation part has determinant
    one. *)
Definition proper (A : M44) : Prop := ishom A /\ det33 (rot A) = 1%R.

(** An element whose transform is a rigid motion: the cached matrix of a
    non-joint, every value of the axis function of a joint.  The six
    factories build such elements; [_CONST] does so when given a rigid
    motion. *)
Definition rigid_et (e : ets.t) : Prop :=
  if ets.joint e then
    forall f, ets.axis_func e = Some f -> forall v, proper (f v)
  else
    forall t, ets.T e = Some t -> proper t.

Definition rigid (S : ETS) : Prop := Forall rigid_et (data S).

(** The joint elements of a sequence, in order, and their number. *)
Definition joint_elements (S : ETS) : list ets.t := List.filter ets.joint (data S).
Definition joint_count (S : ETS) : nat := List.length (joint_elements S).

(** Two neighbours that are both non-joint elements. *)
Fixpoint has_const_run (l : list ets.t) : bool :=
  match l with
  | a :: r =>
      match r with
      | b :: _ => (negb (ets.joint a) && negb (ets.joint b)) || has_const_run r
      | [] => false
      end
  | [] => false
  end.

(** The named tuple that [_CONST(c)] stores. *)
Definition const_et (c : M44) : ets.t :=
  ets.mk None None (Some "C") false (Some c).

Definition flush (const : option M44) : list ets.t :=
  match const with
  | Some c => [const_et c]
  | None => []
  end.

(** The list that [compile] emits on well-formed elements, as a function of
    the remaining input and the pending constant. *)
Fixpoint fold_consts (l : list ets.t) (const : option M44) : list ets.t :=
  match l with
  | [] => flush const
  | e :: r =>
      if ets.joint e then flush const ++ e :: fold_consts r None
      else
        match ets.T e, const with
        | Some t, Some c => fold_consts r (Some (matmul c t))
        | Some t, None => fold_consts r (Some t)
        | None, _ => []
        end
  end.

(** [a * b] on two constructor results *)
Definition mul_results (a b : result ETS) : result ETS :=
  x <- a ;; y <- b ;; Ok (__mul__ x y).

(** ** Sequences of the docstrings *)

(** [ETS.rz() * ETS.tx(1) * ETS.rz() * ETS.tx(1)] *)
Definition two_link : result ETS :=
  mul_results (mul_results (mul_results (rz None "rad") (tx (Some 1%R)))
                           (rz None "rad")) (tx (Some 1%R)).

(** [ETS.rx() * ETS.tx(1) * ETS.tz()] *)
Definition n_docstring : result ETS :=
  mul_results (mul_results (rx None "rad") (tx (Some 1%R))) (tz None).

(** [ETS.tz() * ETS.tx(1) * ETS.rz() * ETS.tx(1)] *)
Definition config_docstring : result ETS :=
  mul_results (mul_results (mul_results (tz None) (tx (Some 1%R)))
                           (rz None "rad")) (tx (Some 1%R)).

(** The named tuples of the factories' results. *)
Definition joint_et (f : R -> M44) (ax : string) : ets.t :=
  ets.mk None (Some f) (Some ax) true None.
Definition fixed_et (f : R -> M44) (ax : string) (v : R) : ets.t :=
  ets.mk (Some v) (Some f) (Some ax) false (Some (f v)).

(** [ETS.rz() * ETS.tx(1) * ETS.ty(2) * ETS.rz()]: two joints around a run
    of two constants. *)
Definition rz_tx_ty_rz : ETS :=
  mkETS [ joint_et trotz "Rz"; fixed_et tx_axis_func "tx" 1%R;
          fixed_et ty_axis_func "ty" 2%R; joint_et trotz "Rz" ].

(** [ETS.tx(1) * ETS.ty(2) * ETS.tz(3)]: no joint. *)
Definition pure_translation : ETS :=
  mkETS [ fixed_et tx_axis_func "tx" 1%R; fixed_et ty_axis_func "ty" 2%R;
          fixed_et tz_axis_func "tz" 3%R ].

(** What the loops of [hessian0] maintain, for the pairs (j, i) in [D] that
    they have been through: [H[:, i, j]] holds both cross products, the
    mirrored [H[:3, j, i]] holds the linear one, and above the diagonal
    [H[3:, j, i]] still holds the zeros of the allocation. *)
Definition hess_inv (J0 : list Col6) (nj : nat) (D : nat -> nat -> Prop)
    (H : list (list Col6)) : Prop :=
  (forall a b, a < nj -> b < nj -> exists c, H_get H a b = Ok c) /\
  (forall j i c, j < i -> i < nj -> H_get H j i = Ok c -> ang c = vzero) /\
  (forall j i cj ci, D j i -> j <= i -> i < nj ->
     J0 !! j = Some cj -> J0 !! i = Some ci ->
     H_get H i j = Ok (mkC (cross (ang cj) (lin ci)) (cross (ang cj) (ang ci))) /\
     (j < i -> exists c, H_get H j i = Ok c /\ lin c = cross (ang cj) (lin ci))).

(** [ETS.rz()] alone. *)
Definition rz_joint : ETS := mkETS [joint_et trotz "Rz"].

(** A Jacobian with two revolute columns: axes z and x, with arms. *)
Definition J0_zx : list Col6 :=
  [ mkC (mkV 0 1 0) (mkV 0 0 1) ; mkC (mkV 0 0 1) (mkV 1 0 0) ]%R.

(** ** Further methods *)

(** [__getitem__] at a slice [a:b] with non-negative (or omitted) bounds and
    step one: [self.data[a:b]] clamps both bounds to the length. *)
Definition __getitem__slice (self : ETS) (start stop : option nat) : ETS :=
  let a := match start with Some a => a | None => 0 end in
  let b := match stop with Some b => b | None => List.length (data self) end in
  mkETS (take (b - a) (drop a (data self))).

(** [pop(self, i=-1)]: [list.pop] takes its index as a C [ssize_t], so an
    integer outside [-2^63, 2^63) is an [OverflowError]; it counts a
    negative index from the end and raises [IndexError] on an empty list or
    an index out of range.  An index inside a list always fits [ssize_t],
    so the overflow test is written on the out-of-range branch.  The result
    is the returned item and the instance as the call leaves it. *)
Definition pop (self : ETS) (i : Z) : result (ETS * ETS) :=
  let len := Z.of_nat (List.length (data self)) in
  let k := if (i <? 0)%Z then (i + len)%Z else i in
  if ((0 <=? k) && (k <? len))%Z then
    match data self !! Z.to_nat k with
    | Some d => Ok (mkETS [d], mkETS (delete (Z.to_nat k) (data self)))
    | None => Raise IndexError
    end
  else if ((i <? - 2 ^ 63) || (2 ^ 63 <=? i))%Z then Raise OverflowError
  else Raise IndexError.

(** [jacobe(self, q=None, T=None)]: [tr2jac] is not a name of the module. *)
Definition jacobe (inv : M44 -> result M44) (self : ETS) (q : option (list R))
    (Tm : option M44) : result (list Col6) :=
  Tm' <- match Tm with
         | None => eval self q "rad"
         | Some t => Ok t
         end ;;
  J0 <- jacob0 inv self q (Some Tm') ;;
  undefined_name "tr2jac".

(** The coordinates that [eval] multiplies into the transforms when called
    with [unit='deg']: an entry consumed by a joint whose axis name starts
    with 'R' is scaled by pi/180, every other entry is left as it is. *)
Fixpoint deg_coordinates (l : list ets.t) (q : list R) : list R :=
  match l with
  | [] => q
  | e :: r =>
      if ets.joint e then
        match q with
        | [] => []
        | qj :: q' =>
            (match ets.axis e with
             | Some (String c _) =>
                 if Ascii.eqb c "R" then (qj * (PI / 180))%R else qj
             | _ => qj
             end) :: deg_coordinates r q'
        end
      else deg_coordinates r q
  end.

(** The product of the matrices of a list of non-joint elements. *)
Fixpoint product_of (l : list ets.t) (Tm : M44) : M44 :=
  match l with
  | [] => Tm
  | e :: r =>
      match ets.T e with
      | Some t => product_of r (matmul Tm t)
      | None => Tm
      end
  end.

(** The number of maximal runs of non-joint elements; [prev] tells whether
    the element before the list is a non-joint one. *)
Fixpoint const_runs (l : list ets.t) (prev : bool) : nat :=
  match l with
  | [] => 0
  | e :: r =>
      if ets.joint e then const_runs r false
      else (if prev then 0 else 1) + const_runs r true
  end.

(** A Jacobian with a revolute column about z and a revolute column about
    x whose arm is along x. *)
Definition J0_z_x : list Col6 :=
  [ mkC (mkV 0 1 0) (mkV 0 0 1) ; mkC (mkV 1 0 0) (mkV 1 0 0) ]%R.

(** A Jacobian with a revolute column about z and a prismatic column
    along x. *)
Definition J0_z_tx : list Col6 :=
  [ mkC (mkV 0 1 0) (mkV 0 0 1) ; mkC (mkV 1 0 0) (mkV 0 0 0) ]%R.

(** What the constructor establishes for an element: a joint has no
    constant and no cached matrix; a constant built from an axis function
    caches that function at its stored constant; a constant built from an
    array has the axis name "C". *)
Definition consistent_et (e : ets.t) : Prop :=
  if ets.joint e then
    ets.eta e = None /\ ets.T e = None /\ ets.axis_func e <> None
  else
    match ets.axis_func e with
    | Some f => exists v, ets.eta e = Some v /\ ets.T e = Some (f v)
    | None => ets.T e <> None /\ ets.axis e = Some "C"
    end.

(** * Properties *)

(** ** Matrix algebra *)

Lemma matmul_assoc (A B C : M44) : matmul (matmul A B) C = matmul A (matmul B C).
Proof. destruct A, B, C; unfold matmul; cbn; f_equal; ring. Qed.

Lemma matmul_eye4_l (A : M44) : matmul eye4 A = A.
Proof. destruct A; unfold matmul, eye4; cbn; f_equal; ring. Qed.

Lemma matmul_eye4_r (A : M44) : matmul A eye4 = A.
Proof. destruct A; unfold matmul, eye4; cbn; f_equal; ring. Qed.

(** ** Membership in SE(3) *)

Lemma matmul33_assoc (A B C : M33) :
  matmul33 (matmul33 A B) C = matmul33 A (matmul33 B C).
Proof. destruct A, B, C; unfold matmul33; cbn; f_equal; ring. Qed.

Lemma matmul33_eye3_r (A : M33) : matmul33 A eye3 = A.
Proof. destruct A; unfold matmul33, eye3; cbn; f_equal; ring. Qed.

Lemma transpose33_matmul33 (A B : M33) :
  transpose33 (matmul33 A B) = matmul33 (transpose33 B) (transpose33 A).
Proof. destruct A, B; unfold matmul33, transpose33; cbn; f_equal; ring. Qed.

(** With [R @ R.T] equal to the identity the determinant test holds. *)
Lemma isR_orthogonal (Rm : M33) :
  matmul33 Rm (transpose33 Rm) = eye3 -> isR Rm.
Proof.
  intros H. split; [exact H |]. rewrite H. unfold det33, eye3. cbn. lra.
Qed.

Lemma isR_matmul33 (A B : M33) : isR A -> isR B -> isR (matmul33 A B).
Proof.
  intros [HA _] [HB _]. apply isR_orthogonal.
  rewrite transpose33_matmul33, matmul33_assoc.
  rewrite <- (matmul33_assoc B), HB.
  replace (matmul33 eye3 (transpose33 A)) with (transpose33 A); [exact HA |].
  destruct A; unfold matmul33, transpose33, eye3; cbn; f_equal; ring.
Qed.

Lemma rot_matmul (A B : M44) :
  m30 B = 0%R -> m31 B = 0%R -> m32 B = 0%R ->
  rot (matmul A B) = matmul33 (rot A) (rot B).
Proof.
  destruct A, B; cbn. intros -> -> ->.
  unfold rot, matmul, matmul33; cbn; f_equal; ring.
Qed.

(** SE(3) is closed under the product. *)
Lemma ishom_matmul (A B : M44) : ishom A -> ishom B -> ishom (matmul A B).
Proof.
  intros (RA & A0 & A1 & A2 & A3) (RB & B0 & B1 & B2 & B3).
  split; [| repeat split].
  - rewrite rot_matmul by assumption. apply isR_matmul33; assumption.
  - unfold matmul; cbn. rewrite A0, A1, A2, A3, B0. ring.
  - unfold matmul; cbn. rewrite A0, A1, A2, A3, B1. ring.
  - unfold matmul; cbn. rewrite A0, A1, A2, A3, B2. ring.
  - unfold matmul; cbn. rewrite A0, A1, A2, A3, B3. ring.
Qed.

Lemma ishom_eye4 : ishom eye4.
Proof.
  split; [| repeat split].
  apply isR_orthogonal. unfold rot, eye4, matmul33, transpose33, eye3; cbn.
  f_equal; ring.
Qed.

Lemma ishom_translation (x y z : R) :
  ishom (mkM 1 0 0 x
             0 1 0 y
             0 0 1 z
             0 0 0 1).
Proof.
  split; [| repeat split].
  apply isR_orthogonal. unfold rot, matmul33, transpose33, eye3; cbn.
  f_equal; ring.
Qed.

Lemma ishom_tx (v : R) : ishom (tx_axis_func v).
Proof. apply ishom_translation. Qed.

Lemma ishom_ty (v : R) : ishom (ty_axis_func v).
Proof. apply ishom_translation. Qed.

Lemma ishom_tz (v : R) : ishom (tz_axis_func v).
Proof. apply ishom_translation. Qed.

Lemma ishom_trotx (theta : R) : ishom (trotx theta).
Proof.
  pose proof (sin2_cos2 theta) as H. unfold Rsqr in H.
  split; [| repeat split].
  apply isR_orthogonal. unfold rot, trotx, matmul33, transpose33, eye3; cbn.
  f_equal; nra.
Qed.

Lemma ishom_troty (theta : R) : ishom (troty theta).
Proof.
  pose proof (sin2_cos2 theta) as H. unfold Rsqr in H.
  split; [| repeat split].
  apply isR_orthogonal. unfold rot, troty, matmul33, transpose33, eye3; cbn.
  f_equal; nra.
Qed.

Lemma ishom_trotz (theta : R) : ishom (trotz theta).
Proof.
  pose proof (sin2_cos2 theta) as H. unfold Rsqr in H.
  split; [| repeat split].
  apply isR_orthogonal. unfold rot, trotz, matmul33, transpose33, eye3; cbn.
  f_equal; nra.
Qed.

(** The constructor of [SE3] returns its argument exactly on SE(3). *)
Lemma SE3_ok (A : M44) : ishom A -> SE3 A = Ok A.
Proof. intros H. unfold SE3. destruct (decide (ishom A)); [reflexivity | contradiction]. Qed.

Lemma SE3_raises (A : M44) : ~ ishom A -> SE3 A = Raise ValueError.
Proof. intros H. unfold SE3. destruct (decide (ishom A)); [contradiction | reflexivity]. Qed.

(** Rigid motions are closed under the product. *)
Lemma det33_matmul33 (A B : M33) :
  det33 (matmul33 A B) = (det33 A * det33 B)%R.
Proof. destruct A, B; unfold det33, matmul33; cbn; ring. Qed.

Lemma proper_ishom (A : M44) : proper A -> ishom A.
Proof. intros [H _]. exact H. Qed.

Lemma proper_matmul (A B : M44) : proper A -> proper B -> proper (matmul A B).
Proof.
  intros [HA DA] [HB DB]. split; [apply ishom_matmul; assumption |].
  destruct HB as (_ & B0 & B1 & B2 & _).
  rewrite rot_matmul, det33_matmul33, DA, DB by assumption. ring.
Qed.

Lemma proper_eye4 : proper eye4.
Proof. split; [apply ishom_eye4 |]. unfold det33, rot, eye4; cbn. ring. Qed.

Lemma proper_tx (v : R) : proper (tx_axis_func v).
Proof. split; [apply ishom_tx |]. unfold det33, rot, tx_axis_func; cbn. ring. Qed.

Lemma proper_ty (v : R) : proper (ty_axis_func v).
Proof. split; [apply ishom_ty |]. unfold det33, rot, ty_axis_func; cbn. ring. Qed.

Lemma proper_tz (v : R) : proper (tz_axis_func v).
Proof. split; [apply ishom_tz |]. unfold det33, rot, tz_axis_func; cbn. ring. Qed.

Lemma proper_trotx (theta : R) : proper (trotx theta).
Proof.
  split; [apply ishom_trotx |].
  pose proof (sin2_cos2 theta) as H. unfold Rsqr in H.
  unfold det33, rot, trotx; cbn. nra.
Qed.

Lemma proper_troty (theta : R) : proper (troty theta).
Proof.
  split; [apply ishom_troty |].
  pose proof (sin2_cos2 theta) as H. unfold Rsqr in H.
  unfold det33, rot, troty; cbn. nra.
Qed.

Lemma proper_trotz (theta : R) : proper (trotz theta).
Proof.
  split; [apply ishom_trotz |].
  pose proof (sin2_cos2 theta) as H. unfold Rsqr in H.
  unfold det33, rot, trotz; cbn. nra.
Qed.

(** The elements of the factories are rigid, whatever the constant. *)
Lemma rigid_joint_et (f : R -> M44) (ax : string) :
  (forall v, proper (f v)) -> rigid_et (joint_et f ax).
Proof. intros Hf g Hg v. inversion Hg; subst. apply Hf. Qed.

Lemma rigid_fixed_et (f : R -> M44) (ax : string) (v : R) :
  (forall w, proper (f w)) -> rigid_et (fixed_et f ax v).
Proof. intros Hf t Ht. inversion Ht; subst. apply Hf. Qed.

Lemma rigid_const_et (c : M44) : proper c -> rigid_et (const_et c).
Proof. intros Hc t Ht. inversion Ht; subst. exact Hc. Qed.

Ltac rigid_elements :=
  unfold rigid; cbn [data];
  repeat (apply Forall_cons_2;
          [ first [ apply rigid_joint_et | apply rigid_fixed_et ]; intros;
            first [ apply proper_trotx | apply proper_troty | apply proper_trotz
                  | apply proper_tx | apply proper_ty | apply proper_tz ] | ]);
  apply Forall_nil_2.

Lemma rigid_rz_tx_ty_rz : rigid rz_tx_ty_rz.
Proof. unfold rz_tx_ty_rz. rigid_elements. Qed.

Lemma rigid_rz_joint : rigid rz_joint.
Proof. unfold rz_joint. rigid_elements. Qed.

Lemma rigid_pure_translation : rigid pure_translation.
Proof. unfold pure_translation. rigid_elements. Qed.

(** ** The constructor *)

Lemma joint_factory (f : R -> M44) (ax : string) :
  __init__ (PyCallable f) (Some ax) None "rad" = Ok (mkETS [joint_et f ax]).
Proof. reflexivity. Qed.

Lemma fixed_factory (f : R -> M44) (ax : string) (v : R) :
  __init__ (PyCallable f) (Some ax) (Some v) "rad" = Ok (mkETS [fixed_et f ax v]).
Proof. reflexivity. Qed.

Lemma CONST_data (c : M44) : _CONST c = Ok (mkETS [const_et c]).
Proof. reflexivity. Qed.

(** Whatever the constructor returns is well formed, provided a joint is
    given a non-empty axis name (as the six factories do). *)
Lemma init_wf af ax v u S :
  (forall f, af = PyCallable f -> exists c s, ax = Some (String c s)) ->
  __init__ af ax v u = Ok S -> wf S = true.
Proof.
  intros Hax H. destruct af as [| A | f |]; cbn in H.
  - destruct ax, v; inversion H; reflexivity.
  - destruct ax, v; inversion H; reflexivity.
  - destruct (Hax f eq_refl) as (c & s & ->).
    destruct v as [v|]; cbn in H.
    + unfold getunit in H. destruct (String.eqb u "rad"); cbn in H.
      * inversion H; reflexivity.
      * destruct (String.eqb u "deg"); cbn in H; inversion H; reflexivity.
    + destruct (String.eqb u "rad"); cbn in H; inversion H; reflexivity.
  - destruct ax, v; inversion H.
Qed.

Lemma two_link_data :
  two_link = Ok (mkETS [ joint_et trotz "Rz"; fixed_et tx_axis_func "tx" 1%R;
                         joint_et trotz "Rz"; fixed_et tx_axis_func "tx" 1%R ]).
Proof. reflexivity. Qed.

Lemma n_docstring_data :
  n_docstring = Ok (mkETS [ joint_et trotx "Rx"; fixed_et tx_axis_func "tx" 1%R;
                            joint_et tz_axis_func "tz" ]).
Proof. reflexivity. Qed.

Lemma config_docstring_data :
  config_docstring =
    Ok (mkETS [ joint_et tz_axis_func "tz"; fixed_et tx_axis_func "tx" 1%R;
                joint_et trotz "Rz"; fixed_et tx_axis_func "tx" 1%R ]).
Proof. reflexivity. Qed.

(** ** Iteration and indexing *)

(** The items that a [for] loop over a sequence sees are the results of
    [self[0]], [self[1]], ... up to the first [IndexError]. *)
Lemma iter_getitem (S : ETS) (i : nat) :
  iter S !! i = match __getitem__ S i with
                | Ok et => Some et
                | Raise _ => None
                end.
Proof.
  unfold iter, __getitem__. revert i.
  induction (data S) as [| d r IH]; intros [| i]; cbn; try reflexivity.
  apply IH.
Qed.

Lemma getitem_wf (S S0 : ETS) (i : nat) :
  wf S = true -> __getitem__ S i = Ok S0 -> wf S0 = true.
Proof.
  unfold wf, __getitem__. intros Hwf H.
  destruct (data S !! i) as [d |] eqn:Hd; inversion H; subst. cbn.
  rewrite andb_true_r.
  rewrite forallb_forall in Hwf. apply Hwf.
  apply list_elem_of_In. eapply list_elem_of_lookup_2. exact Hd.
Qed.

(** ** Accessors read [data[0]] *)

Lemma data0_getitem0 (S S0 : ETS) :
  __getitem__ S 0 = Ok S0 -> data0 S0 = data0 S.
Proof.
  destruct S as [[| d r]]; cbn; intros H; inversion H; reflexivity.
Qed.

(** C10.  On a sequence of two or more elements, [eta], [axis], [isjoint],
    [isrevolute], [isprismatic] and [isconstant] return what they return on
    the length-one sequence [S[0]]: every element after the first is
    ignored. *)
Theorem accessors_report_first_element (S : ETS) :
  2 <= List.length (data S) ->
  exists S0, __getitem__ S 0 = Ok S0 /\ List.length (data S0) = 1 /\
    eta S = eta S0 /\ axis S = axis S0 /\ isjoint S = isjoint S0 /\
    isrevolute S = isrevolute S0 /\ isprismatic S = isprismatic S0 /\
    isconstant S = isconstant S0.
Proof.
  intros Hlen. destruct S as [[| d r]]; cbn in Hlen; [lia |].
  exists (mkETS [d]). split; [reflexivity |]. split; [reflexivity |].
  repeat split.
Qed.

Lemma accessors_report_first_element_witness :
  exists S0,
    __getitem__ (mkETS [fixed_et tx_axis_func "tx" 1%R; joint_et trotz "Rz"]) 0 = Ok S0 /\
    List.length (data S0) = 1 /\
    eta (mkETS [fixed_et tx_axis_func "tx" 1%R; joint_et trotz "Rz"]) = eta S0 /\
    axis (mkETS [fixed_et tx_axis_func "tx" 1%R; joint_et trotz "Rz"]) = axis S0 /\
    isjoint (mkETS [fixed_et tx_axis_func "tx" 1%R; joint_et trotz "Rz"]) = isjoint S0 /\
    isrevolute (mkETS [fixed_et tx_axis_func "tx" 1%R; joint_et trotz "Rz"]) = isrevolute S0 /\
    isprismatic (mkETS [fixed_et tx_axis_func "tx" 1%R; joint_et trotz "Rz"]) = isprismatic S0 /\
    isconstant (mkETS [fixed_et tx_axis_func "tx" 1%R; joint_et trotz "Rz"]) = isconstant S0.
Proof.
  apply accessors_report_first_element. cbn. lia.
Defined.

(** ** The joint counter *)

Lemma n_loop_value (l : list ets.t) (k : nat) :
  n_loop (map (fun d => mkETS [d]) l) k =
    if existsb ets.joint l then Raise TypeError else Ok k.
Proof.
  induction l as [| d r IH]; cbn; [reflexivity |].
  destruct (ets.joint d); cbn; [reflexivity | exact IH].
Qed.

Lemma existsb_joint_count (S : ETS) :
  existsb ets.joint (data S) = negb (Nat.eqb (joint_count S) 0).
Proof.
  unfold joint_count, joint_elements. induction (data S) as [| d r IH]; cbn; [reflexivity |].
  destruct (ets.joint d); cbn; [reflexivity | exact IH].
Qed.

(** [n] returns 0 on a sequence without joints and raises on every other. *)
Lemma n_value (S : ETS) :
  n S = if Nat.eqb (joint_count S) 0 then Ok 0 else Raise TypeError.
Proof.
  unfold n, iter. rewrite n_loop_value, existsb_joint_count.
  destruct (Nat.eqb (joint_count S) 0); reflexivity.
Qed.

(** C4.  On the sequence of the property's own docstring,
    [ETS.rx() * ETS.tx(1) * ETS.tz()], which has two joint elements, [n]
    raises [TypeError] instead of returning 2. *)
Theorem n_raises_on_docstring_example :
  exists S, n_docstring = Ok S /\ joint_count S = 2 /\ n S = Raise TypeError.
Proof.
  eexists. split; [apply n_docstring_data |]. split; reflexivity.
Qed.

(** ** Joint enumeration *)

Lemma mapM_isjoint (l : list ets.t) :
  mapM isjoint (map (fun d => mkETS [d]) l) = Ok (map ets.joint l).
Proof.
  induction l as [| d r IH]; [reflexivity |].
  cbn [map mapM]. rewrite IH. reflexivity.
Qed.

Lemma where_from_length (bs : list bool) :
  forall k, List.length (where_from k bs) = List.length (List.filter (fun b => b) bs).
Proof.
  induction bs as [| b r IH]; intros k; [reflexivity |].
  cbn [where_from List.filter]. destruct b; cbn [List.length]; rewrite IH; reflexivity.
Qed.

Lemma filter_map_joint (l : list ets.t) :
  List.length (List.filter (fun b => b) (map ets.joint l)) =
  List.length (List.filter ets.joint l).
Proof.
  induction l as [| d r IH]; [reflexivity |].
  cbn [map List.filter]. destruct (ets.joint d); cbn [List.length]; rewrite IH; reflexivity.
Qed.

(** [joints()] returns, and returns one index per joint element. *)
Lemma joints_length (S : ETS) :
  exists js, joints S = Ok js /\ List.length js = joint_count S.
Proof.
  unfold joints, iter. rewrite mapM_isjoint. cbn [bind]. eexists. split; [reflexivity |].
  rewrite where_from_length. apply filter_map_joint.
Qed.

(** ** The configuration string *)

Lemma config_uniform (S : ETS) (r : bool) (js : list nat) :
  isrevolute S = Ok r -> joints S = Ok js ->
  config S = Ok (String.concat "" (replicate (List.length js) (if r then "R" else "P"))).
Proof.
  intros Hr Hj.
  assert (E : mapM (fun _ : nat => r0 <- isrevolute S ;; Ok (if r0 then "R" else "P")) js
              = Ok (replicate (List.length js) (if r then "R" else "P"))).
  { clear Hj. induction js as [| j js IH]; [reflexivity |].
    cbn [mapM]. rewrite IH, Hr. reflexivity. }
  unfold config. rewrite Hj. cbn [bind]. rewrite E. reflexivity.
Qed.

(** C5.  On the sequence of the property's own docstring,
    [ETS.tz() * ETS.tx(1) * ETS.rz() * ETS.tx(1)], the joints are elements 0
    (prismatic) and 2 (revolute), and [config] is "PP", not "PR": the
    character of every joint is taken from element 0. *)
Theorem config_docstring_example :
  exists S, config_docstring = Ok S /\
    joints S = Ok [0; 2] /\
    (et <- __getitem__ S 0 ;; isrevolute et) = Ok false /\
    (et <- __getitem__ S 2 ;; isrevolute et) = Ok true /\
    config S = Ok "PP".
Proof.
  eexists. split; [apply config_docstring_data |]. repeat split.
Qed.

(** ** Constant folding *)

Lemma flush_emit (const : option M44) (acc : ETS) :
  match const with
  | Some c => k <- _CONST c ;; Ok (__imul__ acc k)
  | None => Ok acc
  end = Ok (mkETS (data acc ++ flush const)).
Proof.
  destruct const as [c |]; cbn.
  - reflexivity.
  - rewrite app_nil_r. destruct acc; reflexivity.
Qed.

(** On well-formed elements the loop of [compile] returns, and what it
    returns is [fold_consts]. *)
Lemma compile_loop_folds (l : list ets.t) :
  forall const acc,
    forallb wf_et l = true ->
    compile_loop (map (fun d => mkETS [d]) l) const acc =
      Ok (mkETS (data acc ++ fold_consts l const)).
Proof.
  induction l as [| d r IH]; intros const acc Hwf.
  - cbn [map compile_loop fold_consts]. apply flush_emit.
  - cbn [forallb] in Hwf. apply andb_prop in Hwf as [Hd Hr].
    destruct d as [e af ax j Tm]. unfold wf_et in Hd. cbn in Hd.
    cbn [map compile_loop]. destruct j.
    + cbn. destruct const as [c |]; cbn; rewrite IH by exact Hr; cbn;
        rewrite <- ?app_assoc; reflexivity.
    + destruct Tm as [t |]; [| discriminate]. cbn.
      destruct const as [c |]; cbn; apply IH; exact Hr.
Qed.

Lemma compile_value (S : ETS) :
  wf S = true -> compile S = Ok (mkETS (fold_consts (data S) None)).
Proof.
  intros Hwf. unfold compile, iter. rewrite compile_loop_folds by exact Hwf.
  reflexivity.
Qed.

Lemma wf_flush (const : option M44) : forallb wf_et (flush const) = true.
Proof. destruct const; reflexivity. Qed.

Lemma fold_consts_wf (l : list ets.t) :
  forall const, forallb wf_et l = true -> forallb wf_et (fold_consts l const) = true.
Proof.
  induction l as [| d r IH]; intros const Hwf; cbn [fold_consts].
  - apply wf_flush.
  - cbn [forallb] in Hwf. apply andb_prop in Hwf as [Hd Hr].
    destruct (ets.joint d) eqn:Hj.
    + rewrite forallb_app, wf_flush. cbn. rewrite Hd, IH by exact Hr. reflexivity.
    + destruct (ets.T d), const; auto.
Qed.

(** The joint elements pass through unchanged and in order. *)
Lemma fold_consts_joints (l : list ets.t) :
  forall const, forallb wf_et l = true ->
    List.filter ets.joint (fold_consts l const) = List.filter ets.joint l.
Proof.
  induction l as [| d r IH]; intros const Hwf; cbn [fold_consts].
  - destruct const; reflexivity.
  - cbn [forallb] in Hwf. apply andb_prop in Hwf as [Hd Hr].
    cbn [List.filter]. destruct (ets.joint d) eqn:Hj.
    + rewrite List.filter_app. cbn [List.filter]. rewrite Hj, IH by exact Hr.
      destruct const; reflexivity.
    + unfold wf_et in Hd. rewrite Hj in Hd.
      destruct (ets.T d); [| discriminate]. destruct const; apply IH; exact Hr.
Qed.

(** Folding never lengthens: a pending constant costs at most one element. *)
Lemma fold_consts_length_le (l : list ets.t) :
  forall const,
    List.length (fold_consts l const) <= List.length (flush const) + List.length l.
Proof.
  induction l as [| d r IH]; intros const; cbn [fold_consts].
  - cbn. lia.
  - destruct (ets.joint d).
    + rewrite length_app. cbn. specialize (IH None). cbn in IH. lia.
    + destruct (ets.T d) as [t |].
      * destruct const as [c |].
        -- specialize (IH (Some (matmul c t))). cbn in *. lia.
        -- specialize (IH (Some t)). cbn in *. lia.
      * cbn. lia.
Qed.

Lemma has_const_run_cons2 (a b : ets.t) (r : list ets.t) :
  has_const_run (a :: b :: r) =
    (negb (ets.joint a) && negb (ets.joint b)) || has_const_run (b :: r).
Proof. reflexivity. Qed.

Lemma fold_consts_cons (e : ets.t) (r : list ets.t) (const : option M44) :
  fold_consts (e :: r) const =
    if ets.joint e then (flush const ++ e :: fold_consts r None)%list
    else match ets.T e, const with
         | Some t, Some c => fold_consts r (Some (matmul c t))
         | Some t, None => fold_consts r (Some t)
         | None, _ => []
         end.
Proof. reflexivity. Qed.

(** A run of two non-joint neighbours makes the result strictly shorter. *)
Lemma fold_consts_length_lt (l : list ets.t) :
  forall const,
    has_const_run l = true ->
    List.length (fold_consts l const) < List.length (flush const) + List.length l.
Proof.
  induction l as [| a r IH]; intros const Hrun; [discriminate |].
  destruct r as [| b r']; [discriminate |].
  rewrite has_const_run_cons2 in Hrun. apply orb_prop in Hrun as [Hab | Hrun].
  - apply andb_prop in Hab as [Ha Hb].
    apply negb_true_iff in Ha, Hb.
    rewrite fold_consts_cons, Ha.
    destruct (ets.T a) as [ta |]; [| cbn; lia].
    destruct const as [c |]; rewrite fold_consts_cons, Hb;
      (destruct (ets.T b) as [tb |]; [| cbn; lia]).
    + pose proof (fold_consts_length_le r' (Some (matmul (matmul c ta) tb))).
      cbn [List.length flush] in *. lia.
    + pose proof (fold_consts_length_le r' (Some (matmul ta tb))).
      cbn [List.length flush] in *. lia.
  - rewrite fold_consts_cons.
    destruct (ets.joint a).
    + rewrite length_app. specialize (IH None Hrun).
      cbn [List.length flush] in *. lia.
    + destruct (ets.T a) as [ta |].
      * destruct const as [c |].
        -- specialize (IH (Some (matmul c ta)) Hrun). cbn [List.length flush] in *. lia.
        -- specialize (IH (Some ta) Hrun). cbn [List.length flush] in *. lia.
      * cbn. lia.
Qed.

(** Folding a folded list changes nothing. *)
Lemma fold_consts_idempotent (l : list ets.t) :
  forall const, forallb wf_et l = true ->
    fold_consts (fold_consts l const) None = fold_consts l const.
Proof.
  induction l as [| d r IH]; intros const Hwf; cbn [fold_consts].
  - destruct const; reflexivity.
  - cbn [forallb] in Hwf. apply andb_prop in Hwf as [Hd Hr].
    destruct (ets.joint d) eqn:Hj.
    + destruct const as [c |]; cbn; rewrite Hj; cbn; rewrite IH by exact Hr; reflexivity.
    + unfold wf_et in Hd. rewrite Hj in Hd.
      destruct (ets.T d); [| discriminate]. destruct const; apply IH; exact Hr.
Qed.

(** ** Evaluation *)

Lemma eval_unfold (S : ETS) (q : list R) (u : string) :
  eval S (Some q) u =
    (Tm <- eval_loop (map (fun d => mkETS [d]) (data S)) (Some q) u eye4 ;; SE3 Tm).
Proof. reflexivity. Qed.

(** Evaluating the folded list from [Tm] is evaluating the original list
    from [Tm] times the pending constant; the equation covers the runs that
    raise as well. *)
Lemma eval_loop_fold_consts (l : list ets.t) :
  forall const q u Tm,
    forallb wf_et l = true ->
    eval_loop (map (fun d => mkETS [d]) (fold_consts l const)) q u Tm =
    eval_loop (map (fun d => mkETS [d]) l) q u
      (match const with Some c => matmul Tm c | None => Tm end).
Proof.
  induction l as [| d r IH]; intros const q u Tm Hwf.
  - destruct const; reflexivity.
  - cbn [forallb] in Hwf. apply andb_prop in Hwf as [Hd Hr].
    rewrite fold_consts_cons.
    destruct d as [e af ax j t]. unfold wf_et in Hd. cbn in Hd. cbn [ets.joint ets.T].
    destruct j.
    + destruct af as [f |]; [| discriminate].
      destruct ax as [[| c0 s] |]; try discriminate.
      assert (Hstep : forall X Tm',
        eval_loop (mkETS [ets.mk e (Some f) (Some (String c0 s)) true t] :: X) q u Tm' =
        match q with
        | None => Raise AttributeError
        | Some [] => Raise IndexError
        | Some (qj :: q') =>
            eval_loop X (Some q') u
              (matmul Tm' (f (if Ascii.eqb c0 "R" && String.eqb u "deg"
                              then (qj * (PI / 180))%R else qj)))
        end).
      { intros X Tm'. cbn. destruct q as [[| qj q'] |]; reflexivity. }
      rewrite map_app. cbn [map].
      destruct const as [c |]; cbn [flush app map].
      * change (eval_loop (mkETS [const_et c] :: ?X) q u Tm)
          with (eval_loop X q u (matmul Tm c)).
        rewrite !Hstep. destruct q as [[| qj q'] |]; try reflexivity.
        apply (IH None); exact Hr.
      * rewrite !Hstep. destruct q as [[| qj q'] |]; try reflexivity.
        apply (IH None); exact Hr.
    + destruct t as [t |]; [| discriminate]. cbn [map eval_loop].
      destruct const as [c |].
      * rewrite IH by exact Hr. cbn. rewrite matmul_assoc. reflexivity.
      * rewrite IH by exact Hr. reflexivity.
Qed.

(** With at least as many coordinates as joints the loop returns. *)
Lemma eval_loop_ok (l : list ets.t) :
  forall q u Tm,
    forallb wf_et l = true ->
    List.length (List.filter ets.joint l) <= List.length q ->
    exists P, eval_loop (map (fun d => mkETS [d]) l) (Some q) u Tm = Ok P.
Proof.
  induction l as [| d r IH]; intros q u Tm Hwf Hlen.
  - eexists; reflexivity.
  - cbn [forallb] in Hwf. apply andb_prop in Hwf as [Hd Hr].
    destruct d as [e af ax j t]. unfold wf_et in Hd. cbn in Hd, Hlen.
    destruct j; cbn in Hlen.
    + destruct af as [f |]; [| discriminate].
      destruct ax as [[| c0 s] |]; try discriminate.
      destruct q as [| qj q']; cbn in Hlen; [lia |].
      cbn. apply IH; [exact Hr | lia].
    + destruct t as [t |]; [| discriminate]. cbn. apply IH; assumption.
Qed.

(** With fewer coordinates than joints, [q.pop(0)] raises on the empty
    list. *)
Lemma eval_loop_short (l : list ets.t) :
  forall q u Tm,
    forallb wf_et l = true ->
    List.length q < List.length (List.filter ets.joint l) ->
    eval_loop (map (fun d => mkETS [d]) l) (Some q) u Tm = Raise IndexError.
Proof.
  induction l as [| d r IH]; intros q u Tm Hwf Hlen.
  - cbn in Hlen. lia.
  - cbn [forallb] in Hwf. apply andb_prop in Hwf as [Hd Hr].
    destruct d as [e af ax j t]. unfold wf_et in Hd. cbn in Hd, Hlen.
    destruct j; cbn in Hlen.
    + destruct af as [f |]; [| discriminate].
      destruct ax as [[| c0 s] |]; try discriminate.
      destruct q as [| qj q']; cbn in Hlen; [reflexivity |].
      cbn. apply IH; [exact Hr | lia].
    + destruct t as [t |]; [| discriminate]. cbn. apply IH; assumption.
Qed.

(** Only the first [joint_count] coordinates are read. *)
Lemma eval_loop_take (l : list ets.t) :
  forall q u Tm,
    forallb wf_et l = true ->
    List.length (List.filter ets.joint l) <= List.length q ->
    eval_loop (map (fun d => mkETS [d]) l)
      (Some (take (List.length (List.filter ets.joint l)) q)) u Tm =
    eval_loop (map (fun d => mkETS [d]) l) (Some q) u Tm.
Proof.
  induction l as [| d r IH]; intros q u Tm Hwf Hlen.
  - reflexivity.
  - cbn [forallb] in Hwf. apply andb_prop in Hwf as [Hd Hr].
    destruct d as [e af ax j t]. unfold wf_et in Hd. cbn in Hd, Hlen.
    cbn [List.filter ets.joint].
    destruct j; cbn in Hlen.
    + destruct af as [f |]; [| discriminate].
      destruct ax as [[| c0 s] |]; try discriminate.
      destruct q as [| qj q']; cbn in Hlen; [lia |].
      cbn. apply IH; [exact Hr | lia].
    + destruct t as [t |]; [| discriminate]. cbn. apply IH; assumption.
Qed.

(** Over rigid elements the loop stays among the rigid motions. *)
Lemma eval_loop_rigid (l : list ets.t) :
  forall q u Tm P,
    forallb wf_et l = true -> Forall rigid_et l -> proper Tm ->
    eval_loop (map (fun d => mkETS [d]) l) q u Tm = Ok P -> proper P.
Proof.
  induction l as [| d r IH]; intros q u Tm P Hwf Hrig HT H.
  - inversion H; subst. exact HT.
  - cbn [forallb] in Hwf. apply andb_prop in Hwf as [Hd Hr].
    apply Forall_cons_1 in Hrig as [Hrd Hrr].
    destruct d as [e af ax j t]. unfold wf_et in Hd. cbn in Hd.
    unfold rigid_et in Hrd. cbn [ets.joint ets.axis_func ets.T] in Hrd.
    destruct j.
    + destruct af as [f |]; [| discriminate].
      destruct ax as [[| c0 s] |]; try discriminate.
      destruct q as [[| qj q'] |]; try discriminate.
      cbn in H. eapply IH; [exact Hr | exact Hrr | | exact H].
      apply proper_matmul; [exact HT | apply (Hrd f eq_refl)].
    + destruct t as [t |]; [| discriminate]. cbn in H.
      eapply IH; [exact Hr | exact Hrr | | exact H].
      apply proper_matmul; [exact HT | apply (Hrd t eq_refl)].
Qed.

(** On rigid elements and with enough coordinates [eval] returns. *)
Lemma eval_ok (S : ETS) (q : list R) (u : string) :
  wf S = true -> rigid S -> joint_count S <= List.length q ->
  exists P, eval S (Some q) u = Ok P.
Proof.
  intros Hwf Hrig Hlen. rewrite eval_unfold.
  destruct (eval_loop_ok (data S) q u eye4 Hwf Hlen) as [P HP].
  exists P. rewrite HP. cbn [bind]. apply SE3_ok, proper_ishom.
  exact (eval_loop_rigid (data S) (Some q) u eye4 P Hwf Hrig proper_eye4 HP).
Qed.

Lemma eval_compiled (S : ETS) (q : option (list R)) (u : string) :
  wf S = true ->
  eval (mkETS (fold_consts (data S) None)) q u = eval S q u.
Proof.
  intros Hwf. unfold eval, iter. cbn [data].
  destruct q as [q |]; cbn [getvector bind];
    rewrite (eval_loop_fold_consts (data S) None) by exact Hwf; reflexivity.
Qed.

(** The sequences that [*] and indexing build from well-formed operands are
    well formed. *)
Lemma mul_wf (A B : ETS) : wf A = true -> wf B = true -> wf (__mul__ A B) = true.
Proof.
  unfold wf, __mul__. cbn [data]. intros HA HB.
  rewrite forallb_app, HA, HB. reflexivity.
Qed.

Lemma compile_wf (S C : ETS) : wf S = true -> compile S = Ok C -> wf C = true.
Proof.
  intros Hwf H. rewrite compile_value in H by exact Hwf. inversion H; subst.
  apply fold_consts_wf. exact Hwf.
Qed.

(** C1.  For a sequence S of constructor-built elements and a coordinate
    list q with one entry per joint, [compile] returns a sequence C such
    that [eval] has the same outcome on C as on S; when the elements of S
    are rigid, that outcome is a pose, the same on both.  The joint
    elements of C are those of S in the same order (so their number is
    equal), and C has strictly fewer elements whenever S has two
    neighbouring non-joint elements. *)
Theorem compile_preserves_eval (S : ETS) (q : list R) (u : string) :
  wf S = true ->
  List.length q = joint_count S ->
  exists C,
    compile S = Ok C /\
    eval C (Some q) u = eval S (Some q) u /\
    (rigid S -> exists P, eval S (Some q) u = Ok P /\ eval C (Some q) u = Ok P) /\
    joint_elements C = joint_elements S /\ joint_count C = joint_count S /\
    (exists js jc, joints S = Ok js /\ joints C = Ok jc /\
                   List.length jc = List.length js) /\
    (has_const_run (data S) = true ->
       List.length (data C) < List.length (data S)).
Proof.
  intros Hwf Hlen.
  exists (mkETS (fold_consts (data S) None)).
  assert (Hj : joint_elements (mkETS (fold_consts (data S) None)) = joint_elements S).
  { unfold joint_elements. cbn [data]. apply fold_consts_joints. exact Hwf. }
  split; [apply compile_value; exact Hwf |].
  split; [apply eval_compiled; exact Hwf |].
  split; [| split; [| split; [| split]]].
  - intros Hrig. destruct (eval_ok S q u Hwf Hrig) as [P HP]; [lia |].
    exists P. split; [exact HP |].
    rewrite eval_compiled by exact Hwf. exact HP.
  - exact Hj.
  - unfold joint_count. rewrite Hj. reflexivity.
  - destruct (joints_length S) as (js & Ejs & Ljs).
    destruct (joints_length (mkETS (fold_consts (data S) None))) as (jc & Ejc & Ljc).
    exists js, jc. split; [exact Ejs |]. split; [exact Ejc |].
    rewrite Ljs, Ljc. unfold joint_count. rewrite Hj. reflexivity.
  - intros Hrun. cbn [data].
    pose proof (fold_consts_length_lt (data S) None Hrun) as Hlt.
    cbn [flush List.length] in Hlt. lia.
Qed.

Lemma compile_preserves_eval_witness :
  exists C P,
    compile rz_tx_ty_rz = Ok C /\
    eval rz_tx_ty_rz (Some [0; 0]%R) "rad" = Ok P /\
    eval C (Some [0; 0]%R) "rad" = Ok P /\
    joint_elements C = joint_elements rz_tx_ty_rz /\
    joint_count C = joint_count rz_tx_ty_rz /\
    List.length (data C) < List.length (data rz_tx_ty_rz).
Proof.
  destruct (compile_preserves_eval rz_tx_ty_rz [0; 0]%R "rad" eq_refl eq_refl)
    as (C & HC & _ & Hpose & Hje & Hjc & _ & Hlt).
  destruct (Hpose rigid_rz_tx_ty_rz) as (P & HS & HCe).
  exists C, P. repeat split; try assumption. apply Hlt. reflexivity.
Defined.

(** A compiled sequence is a fixed point of [compile]. *)
Lemma compile_fixed_point (S C : ETS) :
  wf S = true -> compile S = Ok C -> compile C = Ok C.
Proof.
  intros Hwf H. rewrite compile_value in H by exact Hwf. inversion H; subst.
  rewrite compile_value by (apply fold_consts_wf; exact Hwf).
  cbn [data]. rewrite fold_consts_idempotent by exact Hwf. reflexivity.
Qed.

(** C9.  For a sequence S of constructor-built elements, [compile] returns
    on S and again on its result, the second result has as many elements as
    the first, and [eval] has the same outcome on both for every argument;
    when the elements of S are rigid, that outcome is a pose, the same on
    both, for every coordinate list with one entry per joint. *)
Theorem compile_idempotent (S : ETS) :
  wf S = true ->
  exists C C',
    compile S = Ok C /\ compile C = Ok C' /\
    List.length (data C') = List.length (data C) /\
    (forall q u, eval C' q u = eval C q u) /\
    (rigid S -> forall q u, List.length q = joint_count C ->
       exists P, eval C (Some q) u = Ok P /\ eval C' (Some q) u = Ok P).
Proof.
  intros Hwf.
  exists (mkETS (fold_consts (data S) None)), (mkETS (fold_consts (data S) None)).
  pose proof (compile_value S Hwf) as HC.
  split; [exact HC |].
  split; [exact (compile_fixed_point S _ Hwf HC) |].
  split; [reflexivity |]. split; [reflexivity |].
  intros Hrig q u Hlen.
  assert (Hjc : joint_count (mkETS (fold_consts (data S) None)) = joint_count S).
  { unfold joint_count, joint_elements. cbn [data].
    rewrite fold_consts_joints by exact Hwf. reflexivity. }
  destruct (eval_ok S q u Hwf Hrig) as [P HP]; [lia |].
  exists P. rewrite eval_compiled by exact Hwf. split; exact HP.
Qed.

Lemma compile_idempotent_witness :
  exists C C' P,
    compile rz_tx_ty_rz = Ok C /\ compile C = Ok C' /\
    List.length (data C') = List.length (data C) /\
    eval C (Some [0; 0]%R) "rad" = Ok P /\ eval C' (Some [0; 0]%R) "rad" = Ok P.
Proof.
  destruct (compile_idempotent rz_tx_ty_rz eq_refl)
    as (C & C' & HC & HC' & Hlen & _ & Hpose).
  assert (Hjc : List.length [0; 0]%R = joint_count C).
  { unfold compile, iter in HC. rewrite compile_loop_folds in HC by reflexivity.
    inversion HC. reflexivity. }
  destruct (Hpose rigid_rz_tx_ty_rz [0; 0]%R "rad" Hjc) as (P & H1 & H2).
  exists C, C', P. repeat split; assumption.
Defined.

(** What [eval] does with the length of the coordinate list, on rigid
    constructor-built elements: with fewer entries than joints it raises
    [IndexError]; with at least as many entries as joints it returns, and
    returns what it returns on the first [joint_count] entries alone. *)
Lemma eval_by_length (S : ETS) (q : list R) (u : string) :
  wf S = true -> rigid S ->
  (List.length q < joint_count S -> eval S (Some q) u = Raise IndexError) /\
  (joint_count S <= List.length q ->
     exists P, eval S (Some q) u = Ok P /\
               eval S (Some (take (joint_count S) q)) u = Ok P).
Proof.
  intros Hwf Hrig. split.
  - intros Hlen. rewrite eval_unfold.
    rewrite eval_loop_short by assumption. reflexivity.
  - intros Hlen. destruct (eval_ok S q u Hwf Hrig Hlen) as [P HP].
    exists P. split; [exact HP |].
    rewrite eval_unfold in *. unfold joint_count, joint_elements.
    rewrite eval_loop_take by assumption. exact HP.
Qed.

(** C8.  [ETS.rz()] has one joint and the list [0, 5] has two entries:
    [eval] returns a pose instead of raising, and the pose is the one it
    returns on [0] alone, the second entry being ignored. *)
Theorem eval_accepts_a_longer_list :
  exists S P,
    rz None "rad" = Ok S /\ joint_count S = 1 /\
    List.length [0; 5]%R <> joint_count S /\
    eval S (Some [0; 5]%R) "rad" = Ok P /\
    eval S (Some [0]%R) "rad" = Ok P.
Proof.
  exists rz_joint, (matmul eye4 (trotz 0)).
  split; [reflexivity |]. split; [reflexivity |].
  split; [cbn; lia |].
  assert (H : SE3 (matmul eye4 (trotz 0)) = Ok (matmul eye4 (trotz 0))).
  { apply SE3_ok, ishom_matmul; [apply ishom_eye4 | apply ishom_trotz]. }
  split; rewrite eval_unfold; cbn -[matmul trotz SE3]; exact H.
Qed.

(** ** The two-link example *)

Lemma trotz_0 : trotz 0 = eye4.
Proof. unfold trotz, eye4. rewrite cos_0, sin_0, Ropp_0. reflexivity. Qed.

Lemma trotz_quarter : trotz (PI / 2) =
  mkM 0 (-1) 0 0
      1 0    0 0
      0 0    1 0
      0 0    0 1.
Proof. unfold trotz. rewrite cos_PI2, sin_PI2. f_equal; lra. Qed.

Lemma trotz_minus_quarter : trotz (- PI / 2) =
  mkM 0    1 0 0
      (-1) 0 0 0
      0    0 1 0
      0    0 0 1.
Proof.
  replace (- PI / 2)%R with (- (PI / 2))%R by lra.
  unfold trotz. rewrite cos_neg, sin_neg, cos_PI2, sin_PI2.
  f_equal; lra.
Qed.

(** The product of two arrays given entry by entry. *)
Lemma matmul_mk a00 a01 a02 a03 a10 a11 a12 a13 a20 a21 a22 a23 a30 a31 a32 a33
                b00 b01 b02 b03 b10 b11 b12 b13 b20 b21 b22 b23 b30 b31 b32 b33 :
  matmul (mkM a00 a01 a02 a03 a10 a11 a12 a13 a20 a21 a22 a23 a30 a31 a32 a33)
         (mkM b00 b01 b02 b03 b10 b11 b12 b13 b20 b21 b22 b23 b30 b31 b32 b33) =
  (mkM (a00 * b00 + a01 * b10 + a02 * b20 + a03 * b30)
       (a00 * b01 + a01 * b11 + a02 * b21 + a03 * b31)
       (a00 * b02 + a01 * b12 + a02 * b22 + a03 * b32)
       (a00 * b03 + a01 * b13 + a02 * b23 + a03 * b33)
       (a10 * b00 + a11 * b10 + a12 * b20 + a13 * b30)
       (a10 * b01 + a11 * b11 + a12 * b21 + a13 * b31)
       (a10 * b02 + a11 * b12 + a12 * b22 + a13 * b32)
       (a10 * b03 + a11 * b13 + a12 * b23 + a13 * b33)
       (a20 * b00 + a21 * b10 + a22 * b20 + a23 * b30)
       (a20 * b01 + a21 * b11 + a22 * b21 + a23 * b31)
       (a20 * b02 + a21 * b12 + a22 * b22 + a23 * b32)
       (a20 * b03 + a21 * b13 + a22 * b23 + a23 * b33)
       (a30 * b00 + a31 * b10 + a32 * b20 + a33 * b30)
       (a30 * b01 + a31 * b11 + a32 * b21 + a33 * b31)
       (a30 * b02 + a31 * b12 + a32 * b22 + a33 * b32)
       (a30 * b03 + a31 * b13 + a32 * b23 + a33 * b33))%R.
Proof. reflexivity. Qed.

(** C7.  For [ETS.rz() * ETS.tx(1) * ETS.rz() * ETS.tx(1)], over the reals:
    [eval([0, 0])] is the identity rotation with translation (2, 0, 0);
    [eval([pi/2, -pi/2])] is the identity rotation with translation
    (1, 1, 0); [eval([90, -90], 'deg')] is the pose of the radian call. *)
Theorem two_link_poses :
  exists S, two_link = Ok S /\
    eval S (Some [0; 0]%R) "rad" =
      Ok (mkM 1 0 0 2
              0 1 0 0
              0 0 1 0
              0 0 0 1)%R /\
    eval S (Some [PI / 2; - PI / 2]%R) "rad" =
      Ok (mkM 1 0 0 1
              0 1 0 1
              0 0 1 0
              0 0 0 1)%R /\
    eval S (Some [90; -90]%R) "deg" = eval S (Some [PI / 2; - PI / 2]%R) "rad".
Proof.
  eexists. split; [apply two_link_data |].
  rewrite !eval_unfold.
  cbn -[matmul trotz tx_axis_func PI Rmult Rdiv IZR SE3].
  repeat split.
  - rewrite trotz_0, !matmul_eye4_l, matmul_eye4_r. unfold tx_axis_func.
    rewrite matmul_mk.
    rewrite <- (SE3_ok _ (ishom_translation 2 0 0)). f_equal. f_equal; lra.
  - rewrite trotz_quarter, trotz_minus_quarter, matmul_eye4_l. unfold tx_axis_func.
    rewrite !matmul_mk.
    rewrite <- (SE3_ok _ (ishom_translation 1 1 0)). f_equal. f_equal; lra.
  - replace (90 * (PI / 180))%R with (PI / 2)%R by lra.
    replace (-90 * (PI / 180))%R with (- PI / 2)%R by lra.
    reflexivity.
Qed.

(** ** The Jacobian *)

(** [jacob0] raises at its first statement, whatever it is given. *)
Lemma jacob0_raises inv (S : ETS) (q : option (list R)) (Tm : option M44) :
  jacob0 inv S q Tm = Raise UnboundLocalError.
Proof. reflexivity. Qed.

(** The loop that [jacob0] does not reach: a non-joint element multiplies
    [U] and writes no column. *)
Lemma jacob0_loop_fixed inv f ax v rest q Tm U j J :
  jacob0_loop inv (mkETS [fixed_et f ax v] :: rest) q Tm U j J =
  jacob0_loop inv rest q Tm (matmul U (f v)) j J.
Proof. reflexivity. Qed.

(** The loop that [jacob0] does not reach: a joint about z multiplies [U] by
    its transform and writes column [j] by the rule o*x - n*y, a. *)
Lemma jacob0_loop_joint_Rz inv f rest q Tm U j J qj Ui c :
  q !! j = Some qj -> J !! j = Some c ->
  inv (matmul U (f qj)) = Ok Ui ->
  jacob0_loop inv (mkETS [joint_et f "Rz"] :: rest) q Tm U j J =
  jacob0_loop inv rest q Tm (matmul U (f qj)) (S j)
    (<[j := mkC (vsub (vscale (col_o (matmul U (f qj))) (m03 (matmul Ui Tm)))
                      (vscale (col_n (matmul U (f qj))) (m13 (matmul Ui Tm))))
                (col_a (matmul U (f qj)))]> J).
Proof.
  intros Hq HJ Hinv. cbn [jacob0_loop]. unfold isjoint, axis_func, axis, index.
  cbn [data0 data bind joint_et ets.joint ets.axis_func ets.axis].
  rewrite Hq. cbn [bind]. rewrite Hinv. cbn [bind].
  unfold jacob0_column. cbn [axis_is String.eqb Ascii.eqb Bool.eqb].
  unfold set_lin, set_ang, index. rewrite HJ. cbn [bind].
  rewrite list_lookup_insert_eq by (eapply lookup_lt_Some; exact HJ).
  cbn [bind lin ang]. rewrite list_insert_insert_eq. reflexivity.
Qed.

(** The loop that [jacob0] does not reach: without joints it returns the
    array it was given, so no column is written. *)
Lemma jacob0_loop_without_joints inv (l : list ets.t) :
  forall q Tm U j J,
    forallb wf_et l = true -> List.filter ets.joint l = [] ->
    jacob0_loop inv (map (fun d => mkETS [d]) l) q Tm U j J = Ok J.
Proof.
  induction l as [| d r IH]; intros q Tm U j J Hwf Hnone; [reflexivity |].
  cbn [forallb] in Hwf. apply andb_prop in Hwf as [Hd Hr].
  destruct d as [e af ax jt t]. unfold wf_et in Hd. cbn in Hd, Hnone.
  destruct jt; [discriminate |].
  destruct t as [t |]; [| discriminate].
  cbn. apply IH; assumption.
Qed.

(** C2.  On [ETS.rz()] with q = [0], a sequence with one joint and a list
    of matching length, [jacob0] raises [UnboundLocalError] (and the
    joint-count property it would call next raises [TypeError]): no column
    is computed. *)
Theorem jacob0_raises_on_one_joint inv :
  rz None "rad" = Ok rz_joint /\
  joint_count rz_joint = List.length [0%R] /\
  jacob0 inv rz_joint (Some [0%R]) None = Raise UnboundLocalError /\
  n rz_joint = Raise TypeError.
Proof. repeat split. Qed.

(** C3.  On [ETS.tx(1) * ETS.ty(2) * ETS.tz(3)], a sequence without joints,
    and on the empty sequence, [jacob0] raises [UnboundLocalError] instead
    of returning an array without columns. *)
Theorem jacob0_raises_without_joints inv :
  joint_count pure_translation = 0 /\
  jacob0 inv pure_translation (Some []) None = Raise UnboundLocalError /\
  jacob0 inv ETS_empty (Some []) None = Raise UnboundLocalError.
Proof. repeat split. Qed.

(** ** The Hessian *)

(** [hessian0] raises on every input: the joint counter raises when there
    is a joint; without joints the three ways on all end in a raise. *)
Lemma hessian0_raises inv (S : ETS) (q : option (list R)) (J0 : option (list Col6)) :
  exists e, hessian0 inv S q J0 = Raise e.
Proof.
  unfold hessian0. rewrite n_value.
  destruct (Nat.eqb (joint_count S) 0); cbn [bind]; [| eexists; reflexivity].
  destruct J0 as [J |]; [eexists; reflexivity |].
  destruct q as [v |]; [| eexists; reflexivity].
  destruct (getvector v (Some 0)); eexists; reflexivity.
Qed.

Lemma H_get_zeros (nj a b : nat) :
  a < nj -> b < nj -> H_get (zeros6x nj nj) a b = Ok czero.
Proof.
  intros Ha Hb. unfold H_get, zeros6x, index.
  rewrite lookup_replicate_2 by exact Ha. cbn [bind].
  rewrite lookup_replicate_2 by exact Hb. reflexivity.
Qed.

Section TensorWrites.
Variables (H : list (list Col6)) (i j : nat) (v : Vec3) (c : Col6).
Hypothesis Hc : H_get H i j = Ok c.

Lemma H_get_rows : exists row, H !! i = Some row /\ row !! j = Some c.
Proof.
  unfold H_get, index in Hc.
  destruct (H !! i) as [row |]; cbn in Hc; [| discriminate].
  exists row. split; [reflexivity |].
  destruct (row !! j); inversion Hc; reflexivity.
Qed.

Lemma H_get_insert (row row' : list Col6) (c' : Col6) :
  H !! i = Some row -> row !! j = Some c -> row' = <[j := c']> row ->
  H_get (<[i := row']> H) i j = Ok c' /\
  forall a b, (a, b) <> (i, j) -> H_get (<[i := row']> H) a b = H_get H a b.
Proof.
  intros Hi Hj ->. unfold H_get, index. split.
  - rewrite list_lookup_insert_eq by (eapply lookup_lt_Some; exact Hi). cbn [bind].
    rewrite list_lookup_insert_eq by (eapply lookup_lt_Some; exact Hj). reflexivity.
  - intros a b Hne. destruct (decide (a = i)) as [-> | Hai].
    + rewrite list_lookup_insert_eq by (eapply lookup_lt_Some; exact Hi).
      rewrite Hi. cbn [bind].
      rewrite list_lookup_insert_ne by congruence. reflexivity.
    + rewrite list_lookup_insert_ne by congruence. reflexivity.
Qed.

Lemma H_set_lin_effect :
  exists H', H_set_lin H i j v = Ok H' /\
    H_get H' i j = Ok (mkC v (ang c)) /\
    forall a b, (a, b) <> (i, j) -> H_get H' a b = H_get H a b.
Proof.
  destruct H_get_rows as (row & Hi & Hj).
  exists (<[i := <[j := mkC v (ang c)]> row]> H). split.
  - unfold H_set_lin, set_lin, index. rewrite Hi. cbn [bind]. rewrite Hj. reflexivity.
  - eapply H_get_insert; eauto.
Qed.

Lemma H_set_ang_effect :
  exists H', H_set_ang H i j v = Ok H' /\
    H_get H' i j = Ok (mkC (lin c) v) /\
    forall a b, (a, b) <> (i, j) -> H_get H' a b = H_get H a b.
Proof.
  destruct H_get_rows as (row & Hi & Hj).
  exists (<[i := <[j := mkC (lin c) v]> row]> H). split.
  - unfold H_set_ang, set_ang, index. rewrite Hi. cbn [bind]. rewrite Hj. reflexivity.
  - eapply H_get_insert; eauto.
Qed.

End TensorWrites.

(** What one pass of the inner loop body writes. *)
Lemma hessian0_step_effect (J0 : list Col6) (H : list (list Col6))
    (j i : nat) (cj ci c0 c1 : Col6) :
  J0 !! j = Some cj -> J0 !! i = Some ci ->
  H_get H i j = Ok c0 -> H_get H j i = Ok c1 ->
  exists H', hessian0_step J0 j i H = Ok H' /\
    H_get H' i j = Ok (mkC (cross (ang cj) (lin ci)) (cross (ang cj) (ang ci))) /\
    (i <> j -> H_get H' j i = Ok (mkC (cross (ang cj) (lin ci)) (ang c1))) /\
    (forall a b, (a, b) <> (i, j) -> (a, b) <> (j, i) -> H_get H' a b = H_get H a b).
Proof.
  intros Hj Hi H0 H1. unfold hessian0_step, index. rewrite Hj, Hi. cbn [bind].
  destruct (H_set_lin_effect H i j (cross (ang cj) (lin ci)) c0 H0)
    as (Ha & Ea & Ga & Oa).
  rewrite Ea. cbn [bind].
  destruct (H_set_ang_effect Ha i j (cross (ang cj) (ang ci)) _ Ga)
    as (Hb & Eb & Gb & Ob).
  rewrite Eb. cbn [bind lin].
  destruct (Nat.eqb i j) eqn:Eij; cbn [negb].
  - apply Nat.eqb_eq in Eij. subst j. exists Hb. split; [reflexivity |].
    split; [exact Gb |]. split; [congruence |].
    intros a b Hne _. rewrite Ob, Oa by exact Hne. reflexivity.
  - apply Nat.eqb_neq in Eij. rewrite Gb. cbn [bind lin].
    assert (Hji : H_get Hb j i = Ok c1).
    { rewrite Ob, Oa by congruence. exact H1. }
    destruct (H_set_lin_effect Hb j i (cross (ang cj) (lin ci)) c1 Hji)
      as (Hd & Ed & Gd & Od).
    exists Hd. split; [exact Ed |].
    split; [rewrite Od by congruence; exact Gb |].
    split; [intros _; exact Gd |].
    intros a b Hne1 Hne2. rewrite Od, Ob, Oa by assumption. reflexivity.
Qed.

Section HessianLoops.
Variables (J0 : list Col6) (nj : nat).
Hypothesis HJ0 : List.length J0 = nj.

Lemma hess_inv_weaken (D D' : nat -> nat -> Prop) (H : list (list Col6)) :
  (forall j i, j <= i -> i < nj -> D' j i -> D j i) ->
  hess_inv J0 nj D H -> hess_inv J0 nj D' H.
Proof.
  intros Himp (I1 & I2 & I3). repeat split; try assumption.
  - eapply I3; eauto.
  - eapply I3; eauto.
Qed.

Lemma hess_inv_zeros : hess_inv J0 nj (fun _ _ => False) (zeros6x nj nj).
Proof.
  repeat split.
  - intros a b Ha Hb. exists czero. apply H_get_zeros; assumption.
  - intros j i c Hji Hi Hc. rewrite H_get_zeros in Hc by lia.
    inversion Hc. reflexivity.
  - contradiction.
  - contradiction.
Qed.

Lemma hessian0_step_inv (D : nat -> nat -> Prop) (H : list (list Col6)) (j i : nat) :
  j <= i -> i < nj -> hess_inv J0 nj D H ->
  exists H', hessian0_step J0 j i H = Ok H' /\
    hess_inv J0 nj (fun j' i' => D j' i' \/ (j' = j /\ i' = i)) H'.
Proof.
  intros Hji Hi (I1 & I2 & I3).
  destruct (lookup_lt_is_Some_2 J0 j) as [cj Hcj]; [lia |].
  destruct (lookup_lt_is_Some_2 J0 i) as [ci Hci]; [lia |].
  destruct (I1 i j) as [c0 H0]; [lia | lia |].
  destruct (I1 j i) as [c1 H1]; [lia | lia |].
  destruct (hessian0_step_effect J0 H j i cj ci c0 c1 Hcj Hci H0 H1)
    as (H' & E & Glow & Gup & Oth).
  exists H'. split; [exact E |].
  assert (Hget : forall a b, (a = i /\ b = j) \/ (a = j /\ b = i /\ i <> j) \/
                             ((a, b) <> (i, j) /\ (a, b) <> (j, i))).
  { intros a b.
    destruct (decide (a = i /\ b = j)) as [| N1]; [tauto |].
    destruct (decide (a = j /\ b = i)) as [[-> ->] | N2].
    - right; left. repeat split. intros ->. apply N1; split; reflexivity.
    - right; right. split; intros Heq; inversion Heq; subst; tauto. }
  split; [| split].
  - intros a b Ha Hb.
    destruct (Hget a b) as [[-> ->] | [(-> & -> & Hne) | [N1 N2]]].
    + eexists; exact Glow.
    + eexists; exact (Gup Hne).
    + rewrite Oth by assumption. exact (I1 a b Ha Hb).
  - intros j' i' c Hlt Hi' Hc.
    destruct (Hget j' i') as [[-> ->] | [(-> & -> & Hne) | [N1 N2]]].
    + lia.
    + rewrite (Gup Hne) in Hc. inversion Hc. cbn [ang].
      eapply I2; [| | exact H1]; lia.
    + rewrite Oth in Hc by assumption. exact (I2 j' i' c Hlt Hi' Hc).
  - intros j' i' cj' ci' HD Hle Hi' Hcj' Hci'.
    destruct (decide (j' = j /\ i' = i)) as [[-> ->] | Hnew].
    + rewrite Hcj in Hcj'. rewrite Hci in Hci'.
      inversion Hcj'; inversion Hci'; subst cj' ci'.
      split; [exact Glow |].
      intros Hlt. eexists. split; [apply Gup; lia | reflexivity].
    + destruct HD as [HD | HD]; [| tauto].
      destruct (I3 j' i' cj' ci' HD Hle Hi' Hcj' Hci') as [Elow Eup].
      split.
      * rewrite Oth; [exact Elow | |]; intros Heq; inversion Heq; subst;
          apply Hnew; split; lia.
      * intros Hlt. rewrite Oth; [exact (Eup Hlt) | |];
          intros Heq; inversion Heq; subst; try lia; apply Hnew; split; lia.
Qed.

(** A loop whose body keeps an invariant indexed by the items gone through
    returns, with the invariant at the whole list. *)
Lemma foldM_invariant {A B} (f : A -> B -> result A) (I : list B -> A -> Prop)
    (xs : list B) :
  (forall p x a, In x xs -> I p a -> exists a', f a x = Ok a' /\ I (p ++ [x]) a') ->
  forall pre a, I pre a -> exists a', foldM f a xs = Ok a' /\ I (pre ++ xs) a'.
Proof.
  induction xs as [| x r IH]; intros Hstep pre a Ha.
  - exists a. rewrite app_nil_r. split; [reflexivity | exact Ha].
  - destruct (Hstep pre x a) as (a1 & E1 & I1); [left; reflexivity | exact Ha |].
    destruct (IH (fun p y b Hy => Hstep p y b (or_intror Hy)) (pre ++ [x]) a1 I1)
      as (a' & E' & I').
    exists a'. cbn [foldM]. rewrite E1. cbn [bind]. split; [exact E' |].
    rewrite <- app_assoc in I'. exact I'.
Qed.

Lemma hessian0_inner_inv (D : nat -> nat -> Prop) (H : list (list Col6)) (j : nat) :
  j < nj -> hess_inv J0 nj D H ->
  exists H', foldM (fun H i => hessian0_step J0 j i H) H (seq j (nj - j)) = Ok H' /\
    hess_inv J0 nj (fun j' i' => D j' i' \/ j' = j) H'.
Proof.
  intros Hj HI.
  destruct (foldM_invariant (fun H i => hessian0_step J0 j i H)
              (fun p H => hess_inv J0 nj (fun j' i' => D j' i' \/ (j' = j /\ In i' p)) H)
              (seq j (nj - j))) with (pre := @nil nat) (a := H) as (H' & E & I').
  - intros p x a Hx Ha. apply in_seq in Hx.
    destruct (hessian0_step_inv (fun j' i' => D j' i' \/ (j' = j /\ In i' p)) a j x)
      as (a' & Ea & Ia); [lia | lia | exact Ha |].
    exists a'. split; [exact Ea |].
    eapply hess_inv_weaken; [| exact Ia].
    cbn beta. intros j' i' _ _ [HD | [-> Hin]]; [tauto |].
    apply in_app_or in Hin as [Hin | [-> | []]]; tauto.
  - eapply hess_inv_weaken; [| exact HI]. cbn beta. intros j' i' _ _ [HD | [_ []]]. exact HD.
  - exists H'. split; [exact E |].
    eapply hess_inv_weaken; [| exact I']. cbn beta.
    intros j' i' Hle Hi' [HD | ->]; [tauto |].
    right. split; [reflexivity |]. cbn [app]. apply in_seq. lia.
Qed.

(** The loops return, and every pair (j, i) with j <= i < n has been
    written. *)
Lemma hessian0_loop_inv :
  exists H, hessian0_loop nj J0 = Ok H /\ hess_inv J0 nj (fun _ _ => True) H.
Proof.
  unfold hessian0_loop.
  destruct (foldM_invariant
              (fun H j => foldM (fun H i => hessian0_step J0 j i H) H (seq j (nj - j)))
              (fun p H => hess_inv J0 nj (fun j' _ => In j' p) H)
              (seq 0 nj)) with (pre := @nil nat) (a := zeros6x nj nj) as (H' & E & I').
  - intros p x a Hx Ha. apply in_seq in Hx.
    destruct (hessian0_inner_inv (fun j' _ => In j' p) a x)
      as (a' & Ea & Ia); [lia | exact Ha |].
    exists a'. split; [exact Ea |].
    eapply hess_inv_weaken; [| exact Ia]. cbn beta.
    intros j' i' _ _ Hin. apply in_app_or in Hin as [Hin | [-> | []]]; tauto.
  - eapply hess_inv_weaken; [| exact hess_inv_zeros]. cbn beta. intros j' i' _ _ [].
  - exists H'. split; [exact E |].
    eapply hess_inv_weaken; [| exact I']. cbn beta.
    intros j' i' Hle Hi' _. cbn [app]. apply in_seq. lia.
Qed.

End HessianLoops.

(** The entries below and above the diagonal after the loops. *)
Lemma hessian0_loop_entries (J0 : list Col6) (nj : nat) :
  List.length J0 = nj ->
  exists H, hessian0_loop nj J0 = Ok H /\
    forall i j ci cj, j < i -> i < nj ->
      J0 !! i = Some ci -> J0 !! j = Some cj ->
      H_get H i j = Ok (mkC (cross (ang cj) (lin ci)) (cross (ang cj) (ang ci))) /\
      H_get H j i = Ok (mkC (cross (ang cj) (lin ci)) vzero).
Proof.
  intros Hlen.
  destruct (hessian0_loop_inv J0 nj Hlen) as (H & E & I1 & I2 & I3).
  exists H. split; [exact E |].
  intros i j ci cj Hji Hi Hci Hcj.
  destruct (I3 j i cj ci) as [Elow Eup]; [exact Logic.I | lia | exact Hi | exact Hcj | exact Hci |].
  split; [exact Elow |].
  destruct (Eup Hji) as (c & Ec & Hl).
  pose proof (I2 j i c Hji Hi Ec) as Ha.
  destruct c as [l a]. cbn [lin ang] in Hl, Ha. subst l a. exact Ec.
Qed.

(** C6.  On [ETS.rz() * ETS.tx(1) * ETS.ty(2) * ETS.rz()], a sequence with
    two joints, [hessian0] raises [TypeError] with coordinates as well as
    with a Jacobian, and on no input at all does it return a tensor. *)
Theorem hessian0_raises_on_two_joints inv :
  joint_count rz_tx_ty_rz = 2 /\
  hessian0 inv rz_tx_ty_rz (Some [0; 0]%R) None = Raise TypeError /\
  hessian0 inv rz_tx_ty_rz None (Some J0_z_x) = Raise TypeError /\
  (forall S q J0, exists e, hessian0 inv S q J0 = Raise e).
Proof.
  split; [reflexivity |]. split; [reflexivity |]. split; [reflexivity |].
  intros S q J0. apply hessian0_raises.
Qed.

(** X26.  In the tensor that the loops of [hessian0] build from a Jacobian
    [J0] with n columns, for every i > j: the linear block is mirrored,
    [H[:3, j, i]] = [H[:3, i, j]] = [J0[3:, j] x J0[:3, i]]; the angular
    block is not: [H[3:, i, j]] = [J0[3:, j] x J0[3:, i]] while
    [H[3:, j, i]] keeps the zeros of the allocation. *)
Theorem hessian0_mirrors_linear_block_only (J0 : list Col6) (nj : nat) :
  List.length J0 = nj ->
  exists H, hessian0_loop nj J0 = Ok H /\
    forall i j ci cj, j < i -> i < nj ->
      J0 !! i = Some ci -> J0 !! j = Some cj ->
      exists hij hji,
        H_get H i j = Ok hij /\ H_get H j i = Ok hji /\
        lin hij = cross (ang cj) (lin ci) /\
        ang hij = cross (ang cj) (ang ci) /\
        lin hji = lin hij /\
        ang hji = vzero.
Proof.
  intros Hlen.
  destruct (hessian0_loop_entries J0 nj Hlen) as (H & E & Hent).
  exists H. split; [exact E |].
  intros i j ci cj Hji Hi Hci Hcj.
  destruct (Hent i j ci cj Hji Hi Hci Hcj) as [Elow Eup].
  eexists. eexists. split; [exact Elow |]. split; [exact Eup |].
  repeat split.
Qed.

Lemma hessian0_mirrors_linear_block_only_witness :
  exists H hij hji,
    hessian0_loop 2 J0_z_x = Ok H /\
    H_get H 1 0 = Ok hij /\ H_get H 0 1 = Ok hji /\
    lin hij = cross (mkV 0 0 1) (mkV 1 0 0) /\
    ang hij = cross (mkV 0 0 1) (mkV 1 0 0) /\
    lin hji = lin hij /\
    ang hji = vzero.
Proof.
  destruct (hessian0_mirrors_linear_block_only J0_z_x 2 eq_refl) as (H & E & Hent).
  destruct (Hent 1 0 _ _ Nat.lt_0_1 Nat.lt_1_2 eq_refl eq_refl)
    as (hij & hji & E1 & E2 & E3 & E4 & E5 & E6).
  exists H, hij, hji. repeat split; assumption.
Defined.

(** For the Jacobian with columns (0,1,0, 0,0,1) and (0,0,1, 1,0,0), the
    angular entries [H[3:, 0, 1]] and [H[3:, 1, 0]] that the loops leave
    differ. *)
Lemma hessian0_angular_block_not_mirrored :
  exists H hij hji,
    hessian0_loop 2 J0_zx = Ok H /\
    H_get H 1 0 = Ok hij /\ H_get H 0 1 = Ok hji /\
    ang hji <> ang hij.
Proof.
  destruct (hessian0_loop_entries J0_zx 2 eq_refl) as (H & E & Hent).
  destruct (Hent 1 0 _ _ (Nat.lt_0_1) (Nat.lt_1_2) eq_refl eq_refl) as [Elow Eup].
  eexists H, _, _. split; [exact E |]. split; [exact Elow |]. split; [exact Eup |].
  cbn [ang lin]. unfold cross, vzero. cbn [vx vy vz].
  intros Heq. apply (f_equal vy) in Heq. cbn [vy] in Heq. lra.
Qed.

(** * Further properties *)

(** ** The constructor *)

(** X1.  Whatever [__init__] returns without raising holds at most one
    element, and that element is consistent: a joint carries neither a
    constant nor a cached matrix, a constant built from an axis function
    caches the function's value at the stored constant, and a constant
    built from an array is named "C". *)
Theorem init_consistent af ax v u S :
  __init__ af ax v u = Ok S ->
  List.length (data S) <= 1 /\ Forall consistent_et (data S).
Proof.
  intros H. destruct af as [| A | f |]; cbn in H.
  - destruct ax, v; inversion H. cbn. split; [lia | constructor].
  - assert (S = mkETS [ets.mk v None (Some "C") false (Some A)]) as ->.
    { destruct ax, v; inversion H; reflexivity. }
    cbn. split; [lia |]. repeat constructor. discriminate.
  - destruct v as [v |]; cbn in H.
    + unfold getunit in H.
      destruct (String.eqb u "rad"); cbn in H;
        [| destruct (String.eqb u "deg"); cbn in H; [| discriminate]];
        inversion H; cbn; (split; [lia |]); repeat constructor;
        unfold consistent_et; cbn; eexists; split; reflexivity.
    + destruct (String.eqb u "rad"); cbn in H; inversion H. cbn.
      split; [lia |]. repeat constructor. discriminate.
  - destruct ax, v; inversion H.
Qed.

Lemma init_consistent_witness :
  List.length (data (mkETS [fixed_et trotx "Rx" (90 * PI / 180)%R])) <= 1 /\
  Forall consistent_et (data (mkETS [fixed_et trotx "Rx" (90 * PI / 180)%R])).
Proof.
  apply (init_consistent (PyCallable trotx) (Some "Rx") (Some 90%R) "deg").
  reflexivity.
Defined.

(** X2.  Units at construction.  A rotation constant given in degrees is
    the constant given in radians after conversion; a joint only accepts
    "rad"; a unit that is neither "rad" nor "deg" is a [ValueError] for a
    constant as well. *)
Theorem init_units (f : R -> M44) (ax : option string) (v : R) (u : string) :
  __init__ (PyCallable f) ax (Some v) "deg" =
    __init__ (PyCallable f) ax (Some (v * PI / 180)%R) "rad" /\
  (String.eqb u "rad" = false ->
     __init__ (PyCallable f) ax None u = Raise ValueError) /\
  (String.eqb u "rad" = false -> String.eqb u "deg" = false ->
     __init__ (PyCallable f) ax (Some v) u = Raise ValueError).
Proof.
  split; [reflexivity |]. split.
  - intros Hu. cbn. rewrite Hu. reflexivity.
  - intros Hr Hd. cbn. unfold getunit. rewrite Hr, Hd. reflexivity.
Qed.


(** ** Concatenation *)

(** X3.  [*] is associative with the empty sequence as its unit on both
    sides, adds the lengths, and [*=] returns what [*] returns. *)
Theorem mul_monoid (A B C : ETS) :
  __mul__ (__mul__ A B) C = __mul__ A (__mul__ B C) /\
  __mul__ ETS_empty A = A /\ __mul__ A ETS_empty = A /\
  List.length (data (__mul__ A B)) = List.length (data A) + List.length (data B) /\
  __imul__ A B = __mul__ A B.
Proof.
  unfold __mul__, __imul__, ETS_empty. cbn [data]. destruct A as [a].
  cbn [data]. rewrite app_assoc, app_nil_r, length_app. repeat split.
Qed.

(** ** Evaluation composes *)

(** Starting the loop from [Tm] multiplies what it returns from the
    identity by [Tm] on the left; a raise is the same raise. *)
Lemma eval_loop_from (l : list ets.t) :
  forall q u Tm,
    forallb wf_et l = true ->
    eval_loop (map (fun d => mkETS [d]) l) q u Tm =
    (P <- eval_loop (map (fun d => mkETS [d]) l) q u eye4 ;; Ok (matmul Tm P)).
Proof.
  induction l as [| d r IH]; intros q u Tm Hwf.
  - cbn. rewrite matmul_eye4_r. reflexivity.
  - cbn [forallb] in Hwf. apply andb_prop in Hwf as [Hd Hr].
    destruct d as [e af ax j t]. unfold wf_et in Hd. cbn in Hd.
    destruct j.
    + destruct af as [f |]; [| discriminate].
      destruct ax as [[| c0 s] |]; try discriminate.
      destruct q as [[| qj q'] |]; try reflexivity.
      cbn. rewrite IH by exact Hr.
      rewrite (IH (Some q') u (matmul eye4 _)) by exact Hr.
      destruct (eval_loop _ (Some q') u eye4); cbn; [| reflexivity].
      rewrite matmul_eye4_l, matmul_assoc. reflexivity.
    + destruct t as [t |]; [| discriminate]. cbn.
      rewrite IH by exact Hr. rewrite (IH q u (matmul eye4 t)) by exact Hr.
      destruct (eval_loop _ q u eye4); cbn; [| reflexivity].
      rewrite matmul_eye4_l, matmul_assoc. reflexivity.
Qed.

(** The loop over a concatenation, once the first part has consumed its
    coordinates, continues over the second part. *)
Lemma eval_loop_app (lA : list ets.t) :
  forall qA u Tm,
    forallb wf_et lA = true ->
    List.length qA = List.length (List.filter ets.joint lA) ->
    exists PA, eval_loop (map (fun d => mkETS [d]) lA) (Some qA) u Tm = Ok PA /\
      forall lB qB,
        eval_loop (map (fun d => mkETS [d]) (lA ++ lB)) (Some (qA ++ qB)) u Tm =
        eval_loop (map (fun d => mkETS [d]) lB) (Some qB) u PA.
Proof.
  induction lA as [| d r IH]; intros qA u Tm Hwf Hlen.
  - destruct qA; [| discriminate]. exists Tm. split; reflexivity.
  - cbn [forallb] in Hwf. apply andb_prop in Hwf as [Hd Hr].
    destruct d as [e af ax j t]. unfold wf_et in Hd. cbn in Hd, Hlen.
    destruct j; cbn in Hlen.
    + destruct af as [f |]; [| discriminate].
      destruct ax as [[| c0 s] |]; try discriminate.
      destruct qA as [| qj q']; [discriminate |]. cbn in Hlen.
      destruct (IH q' u (matmul Tm (f (if Ascii.eqb c0 "R" && String.eqb u "deg"
                                       then (qj * (PI / 180))%R else qj))) Hr)
        as (PA & EA & Happ); [lia |].
      exists PA. split; [exact EA |]. intros lB qB. apply Happ.
    + destruct t as [t |]; [| discriminate].
      destruct (IH qA u (matmul Tm t) Hr Hlen) as (PA & EA & Happ).
      exists PA. split; [exact EA |]. intros lB qB. apply Happ.
Qed.

(** X4.  Forward kinematics composes: for constructor-built sequences A and
    B of rigid elements and a coordinate list for A with one entry per
    joint of A, [eval] on [A * B] with the two coordinate lists joined
    returns the product of the pose of A and the pose of B (and raises what
    [eval] on B raises). *)
Theorem eval_mul (A B : ETS) (qA qB : list R) (u : string) :
  wf A = true -> wf B = true ->
  rigid A -> rigid B ->
  List.length qA = joint_count A ->
  exists PA, eval A (Some qA) u = Ok PA /\
    eval (__mul__ A B) (Some (qA ++ qB)) u =
      (PB <- eval B (Some qB) u ;; Ok (matmul PA PB)).
Proof.
  intros HA HB RA RB Hlen.
  destruct (eval_loop_app (data A) qA u eye4 HA Hlen) as (PA & EA & Happ).
  pose proof (eval_loop_rigid (data A) (Some qA) u eye4 PA HA RA proper_eye4 EA) as HPA.
  exists PA. rewrite !eval_unfold. unfold __mul__. cbn [data].
  split; [rewrite EA; cbn [bind]; apply SE3_ok, proper_ishom; exact HPA |].
  rewrite Happ, eval_loop_from by exact HB.
  destruct (eval_loop (map (fun d => mkETS [d]) (data B)) (Some qB) u eye4)
    as [P | ex] eqn:EB; cbn [bind]; [| reflexivity].
  pose proof (eval_loop_rigid (data B) (Some qB) u eye4 P HB RB proper_eye4 EB) as HP.
  rewrite (SE3_ok P (proper_ishom P HP)). cbn [bind].
  apply SE3_ok, proper_ishom, proper_matmul; assumption.
Qed.

Lemma eval_mul_witness :
  exists PA, eval rz_joint (Some [0%R]) "rad" = Ok PA /\
    eval (__mul__ rz_joint pure_translation) (Some ([0%R] ++ [])) "rad" =
      (PB <- eval pure_translation (Some []) "rad" ;; Ok (matmul PA PB)).
Proof.
  apply (eval_mul rz_joint pure_translation [0%R] [] "rad");
    first [ reflexivity | exact rigid_rz_joint | exact rigid_pure_translation ].
Defined.

(** ** Units and missing coordinates in [eval] *)

(** X5.  With [unit='deg'], [eval] returns what it returns in radians on
    the coordinates converted joint by joint: an entry consumed by a
    revolute joint is scaled by pi/180, an entry consumed by a prismatic
    joint is used as given. *)
Theorem eval_deg (S : ETS) (q : list R) :
  wf S = true ->
  eval S (Some q) "deg" = eval S (Some (deg_coordinates (data S) q)) "rad".
Proof.
  intros Hwf. rewrite !eval_unfold. unfold wf in Hwf. f_equal.
  generalize eye4. revert q Hwf.
  induction (data S) as [| d r IH]; intros q Hwf Tm; [reflexivity |].
  cbn [forallb] in Hwf. apply andb_prop in Hwf as [Hd Hr].
  destruct d as [e af ax j t]. unfold wf_et in Hd. cbn in Hd.
  destruct j.
  - destruct af as [f |]; [| discriminate].
    destruct ax as [[| c0 s] |]; try discriminate.
    destruct q as [| qj q']; [reflexivity |].
    cbn. rewrite andb_true_r, andb_false_r. apply IH. exact Hr.
  - destruct t as [t |]; [| discriminate]. cbn. apply IH. exact Hr.
Qed.

Lemma eval_deg_witness :
  eval rz_tx_ty_rz (Some [90; -90]%R) "deg" =
  eval rz_tx_ty_rz (Some (deg_coordinates (data rz_tx_ty_rz) [90; -90]%R)) "rad".
Proof. apply (eval_deg rz_tx_ty_rz [90; -90]%R). reflexivity. Defined.

(** One pass of the loop of [eval] depends on the unit only through the
    comparison with "deg". *)
Lemma eval_loop_unit (its : list ETS) (u : string) :
  String.eqb u "deg" = false ->
  forall q Tm, eval_loop its q u Tm = eval_loop its q "rad" Tm.
Proof.
  intros Hu. induction its as [| et rest IH]; intros q Tm; [reflexivity |].
  cbn [eval_loop]. destruct (isjoint et) as [[|] | ex]; cbn [bind]; try reflexivity.
  - destruct q as [[| qj q'] |]; try reflexivity.
    destruct (isrevolute et) as [rv | ex]; cbn [bind]; [| reflexivity].
    rewrite Hu. cbn [String.eqb Ascii.eqb Bool.eqb andb].
    rewrite andb_false_r.
    destruct (T et (Some qj)) as [A | ex]; cbn [bind]; [| reflexivity].
    destruct (matmul_obj Tm A) as [Tm' | ex]; cbn [bind]; [| reflexivity].
    apply IH.
  - destruct (T et None) as [A | ex]; cbn [bind]; [| reflexivity].
    destruct (matmul_obj Tm A) as [Tm' | ex]; cbn [bind]; [| reflexivity].
    apply IH.
Qed.

(** X6.  [eval] does not validate its unit: any unit string other than
    "deg" is treated as radians, for every sequence and every argument. *)
Theorem eval_unknown_unit_is_radians (S : ETS) (q : option (list R)) (u : string) :
  String.eqb u "deg" = false ->
  eval S q u = eval S q "rad".
Proof.
  intros Hu. unfold eval.
  destruct (match q with
            | Some v => v' <- getvector v None ;; Ok (Some v')
            | None => Ok None
            end) as [q' | ex]; cbn [bind]; [| reflexivity].
  rewrite (eval_loop_unit _ u Hu). reflexivity.
Qed.

Lemma eval_unknown_unit_is_radians_witness :
  eval rz_joint (Some [90%R]) "degrees" = eval rz_joint (Some [90%R]) "rad".
Proof. apply (eval_unknown_unit_is_radians rz_joint (Some [90%R]) "degrees"). reflexivity. Defined.

Lemma eval_loop_none (l : list ets.t) :
  forall u Tm,
    forallb wf_et l = true ->
    eval_loop (map (fun d => mkETS [d]) l) None u Tm =
      if existsb ets.joint l then Raise AttributeError
      else Ok (product_of l Tm).
Proof.
  induction l as [| d r IH]; intros u Tm Hwf; [reflexivity |].
  cbn [forallb] in Hwf. apply andb_prop in Hwf as [Hd Hr].
  destruct d as [e af ax j t]. unfold wf_et in Hd. cbn in Hd.
  destruct j; [reflexivity |].
  destruct t as [t |]; [| discriminate]. cbn. apply IH. exact Hr.
Qed.

Lemma eval_loop_nil_q (l : list ets.t) :
  forall u Tm,
    forallb wf_et l = true -> existsb ets.joint l = false ->
    eval_loop (map (fun d => mkETS [d]) l) (Some []) u Tm = Ok (product_of l Tm).
Proof.
  induction l as [| d r IH]; intros u Tm Hwf Hnj; [reflexivity |].
  cbn [forallb] in Hwf. apply andb_prop in Hwf as [Hd Hr].
  destruct d as [e af ax j t]. unfold wf_et in Hd. cbn in Hd, Hnj.
  destruct j; [discriminate |].
  destruct t as [t |]; [| discriminate]. cbn. apply IH; assumption.
Qed.

(** Without joints the loop is the product of the constants, which [eval]
    then hands to [SE3]. *)
Lemma eval_joint_free (S : ETS) (u : string) :
  wf S = true -> joint_count S = 0 ->
  eval S None u = SE3 (product_of (data S) eye4) /\
  eval S (Some []) u = SE3 (product_of (data S) eye4).
Proof.
  intros Hwf H0. pose proof (existsb_joint_count S) as Hex.
  rewrite H0 in Hex. cbn in Hex.
  unfold eval. cbn [bind getvector]. unfold iter.
  rewrite eval_loop_none, Hex by exact Hwf.
  rewrite eval_loop_nil_q by assumption. split; reflexivity.
Qed.

Lemma product_of_rigid (l : list ets.t) (Tm : M44) :
  forallb wf_et l = true -> Forall rigid_et l -> existsb ets.joint l = false ->
  proper Tm -> proper (product_of l Tm).
Proof.
  intros Hwf Hrig Hnj HT.
  apply (eval_loop_rigid l None "rad" Tm _ Hwf Hrig HT).
  rewrite eval_loop_none, Hnj by exact Hwf. reflexivity.
Qed.

(** X7.  [eval] without coordinates ([q=None]): on a constructor-built
    sequence without joints it hands the product of the constants to [SE3],
    as it does with an empty list, so it returns that product when the
    elements are rigid; on a sequence with a joint it raises
    [AttributeError]. *)
Theorem eval_without_coordinates (S : ETS) (u : string) :
  wf S = true ->
  (joint_count S = 0 ->
     eval S None u = SE3 (product_of (data S) eye4) /\
     eval S (Some []) u = SE3 (product_of (data S) eye4) /\
     (rigid S ->
        eval S None u = Ok (product_of (data S) eye4) /\
        eval S (Some []) u = Ok (product_of (data S) eye4))) /\
  (0 < joint_count S -> eval S None u = Raise AttributeError).
Proof.
  intros Hwf. split.
  - intros H0. destruct (eval_joint_free S u Hwf H0) as [E1 E2].
    split; [exact E1 |]. split; [exact E2 |].
    intros Hrig. rewrite E1, E2.
    pose proof (existsb_joint_count S) as Hex. rewrite H0 in Hex. cbn in Hex.
    rewrite SE3_ok
      by (apply proper_ishom, product_of_rigid;
          [exact Hwf | exact Hrig | exact Hex | exact proper_eye4]).
    split; reflexivity.
  - intros Hpos. pose proof (existsb_joint_count S) as Hex.
    unfold eval. cbn [bind]. unfold iter.
    rewrite eval_loop_none by exact Hwf.
    destruct (joint_count S); [lia |]. cbn in Hex. rewrite Hex. reflexivity.
Qed.

Lemma eval_without_coordinates_witness :
  eval pure_translation None "rad" = Ok (product_of (data pure_translation) eye4) /\
  eval pure_translation (Some []) "rad" = Ok (product_of (data pure_translation) eye4).
Proof.
  destruct (eval_without_coordinates pure_translation "rad" eq_refl) as [H _].
  destruct (H eq_refl) as (_ & _ & Hrig).
  exact (Hrig rigid_pure_translation).
Defined.

(** ** Joint enumeration *)

Lemma where_from_filter (bs : list bool) :
  forall k,
    where_from k bs =
    List.filter (fun i => match bs !! (i - k) with Some b => b | None => false end)
                (seq k (List.length bs)).
Proof.
  induction bs as [| b r IH]; intros k; [reflexivity |].
  cbn [where_from List.length seq List.filter].
  rewrite Nat.sub_diag. cbn [lookup list_lookup].
  assert (E : List.filter
                (fun i => match (b :: r) !! (i - k) with Some b0 => b0 | None => false end)
                (seq (S k) (List.length r)) =
              List.filter
                (fun i => match r !! (i - S k) with Some b0 => b0 | None => false end)
                (seq (S k) (List.length r))).
  { apply List.filter_ext_in. intros i Hi. apply in_seq in Hi.
    replace (i - k) with (S (i - S k)) by lia. reflexivity. }
  rewrite E, <- IH. destruct b; reflexivity.
Qed.

(** X8.  [joints()] returns, in ascending order, exactly the positions of
    the sequence whose element is a joint. *)
Theorem joints_positions (S : ETS) :
  joints S =
    Ok (List.filter
          (fun i => match data S !! i with Some d => ets.joint d | None => false end)
          (seq 0 (List.length (data S)))).
Proof.
  unfold joints, iter. rewrite mapM_isjoint. cbn [bind]. f_equal.
  rewrite where_from_filter, length_map.
  apply List.filter_ext. intros i. rewrite Nat.sub_0_r.
  change (map ets.joint (data S)) with (ets.joint <$> data S).
  rewrite list_lookup_fmap. destruct (data S !! i); reflexivity.
Qed.

(** ** What [compile] emits *)

Lemma has_const_run_joint (e : ets.t) (X : list ets.t) :
  ets.joint e = true -> has_const_run (e :: X) = has_const_run X.
Proof.
  intros Hj. destruct X as [| b X']; [reflexivity |].
  rewrite has_const_run_cons2, Hj. reflexivity.
Qed.

Lemma fold_consts_no_run (l : list ets.t) :
  forall const, has_const_run (fold_consts l const) = false.
Proof.
  induction l as [| d r IH]; intros const.
  - destruct const; reflexivity.
  - rewrite fold_consts_cons. destruct (ets.joint d) eqn:Hj.
    + destruct const as [c |]; cbn [flush app].
      * rewrite has_const_run_cons2, Hj, andb_false_r. cbn [orb].
        rewrite has_const_run_joint by exact Hj. apply IH.
      * rewrite has_const_run_joint by exact Hj. apply IH.
    + destruct (ets.T d), const; try apply IH; reflexivity.
Qed.

Lemma fold_consts_elements (l : list ets.t) :
  forall const,
    Forall (fun e => ets.joint e = true \/ exists c, e = const_et c)
           (fold_consts l const).
Proof.
  induction l as [| d r IH]; intros const.
  - destruct const as [c |]; cbn [flush]; [| constructor].
    constructor; [right; exists c; reflexivity | constructor].
  - rewrite fold_consts_cons. destruct (ets.joint d) eqn:Hj.
    + apply Forall_app. split.
      * destruct const as [c |]; cbn [flush]; [| constructor].
        constructor; [right; exists c; reflexivity | constructor].
      * constructor; [left; exact Hj | apply IH].
    + destruct (ets.T d), const; try apply IH; constructor.
Qed.

(** X9.  The sequence that [compile] returns is in normal form: no two
    neighbouring elements are both non-joint, and every non-joint element
    is a folded constant (axis name "C", no axis function, no eta). *)
Theorem compile_normal_form (S : ETS) :
  wf S = true ->
  exists C, compile S = Ok C /\
    has_const_run (data C) = false /\
    Forall (fun e => ets.joint e = true \/ exists c, e = const_et c) (data C).
Proof.
  intros Hwf. eexists. split; [apply compile_value; exact Hwf |].
  cbn [data]. split; [apply fold_consts_no_run | apply fold_consts_elements].
Qed.

Lemma compile_normal_form_witness :
  exists C, compile rz_tx_ty_rz = Ok C /\
    has_const_run (data C) = false /\
    Forall (fun e => ets.joint e = true \/ exists c, e = const_et c) (data C).
Proof. apply (compile_normal_form rz_tx_ty_rz). reflexivity. Defined.

Lemma fold_consts_joint_free (l : list ets.t) :
  forall c,
    forallb wf_et l = true -> existsb ets.joint l = false ->
    fold_consts l (Some c) = [const_et (product_of l c)].
Proof.
  induction l as [| d r IH]; intros c Hwf Hnj; [reflexivity |].
  cbn [forallb] in Hwf. apply andb_prop in Hwf as [Hd Hr].
  cbn [existsb] in Hnj. apply orb_false_elim in Hnj as [Hj Hnj].
  rewrite fold_consts_cons, Hj. unfold wf_et in Hd. rewrite Hj in Hd.
  cbn [product_of]. destruct (ets.T d) as [t |]; [| discriminate].
  apply IH; assumption.
Qed.

(** X10.  On a non-empty constructor-built sequence without joints,
    [compile] returns a single constant, and its matrix is the matrix that
    [eval] hands to [SE3] and returns; on the empty sequence it returns the
    empty sequence. *)
Theorem compile_joint_free (S : ETS) (u : string) :
  wf S = true -> joint_count S = 0 ->
  (data S = [] -> compile S = Ok ETS_empty) /\
  (data S <> [] ->
     compile S = Ok (mkETS [const_et (product_of (data S) eye4)]) /\
     eval S None u = SE3 (product_of (data S) eye4)).
Proof.
  intros Hwf H0.
  pose proof (existsb_joint_count S) as Hex. rewrite H0 in Hex. cbn in Hex.
  rewrite compile_value by exact Hwf. split.
  - intros ->. reflexivity.
  - intros Hne. split; [| apply (eval_joint_free S u Hwf H0)].
    f_equal. f_equal. unfold wf in Hwf.
    destruct (data S) as [| d r]; [contradiction |].
    cbn [forallb] in Hwf. apply andb_prop in Hwf as [Hd Hr].
    cbn [existsb] in Hex. apply orb_false_elim in Hex as [Hj Hnj].
    rewrite fold_consts_cons, Hj. unfold wf_et in Hd. rewrite Hj in Hd.
    cbn [product_of]. destruct (ets.T d) as [t |]; [| discriminate].
    rewrite matmul_eye4_l. apply fold_consts_joint_free; assumption.
Qed.

Lemma compile_joint_free_witness :
  (data pure_translation = [] -> compile pure_translation = Ok ETS_empty) /\
  (data pure_translation <> [] ->
     compile pure_translation =
       Ok (mkETS [const_et (product_of (data pure_translation) eye4)]) /\
     eval pure_translation None "rad" = SE3 (product_of (data pure_translation) eye4)).
Proof. apply (compile_joint_free pure_translation "rad"); reflexivity. Defined.

Lemma fold_consts_length (l : list ets.t) :
  forall const,
    forallb wf_et l = true ->
    List.length (fold_consts l const) =
      List.length (List.filter ets.joint l) +
      const_runs l (match const with Some _ => true | None => false end) +
      List.length (flush const).
Proof.
  induction l as [| d r IH]; intros const Hwf.
  - destruct const; reflexivity.
  - cbn [forallb] in Hwf. apply andb_prop in Hwf as [Hd Hr].
    rewrite fold_consts_cons. cbn [List.filter const_runs].
    unfold wf_et in Hd. destruct (ets.joint d).
    + rewrite length_app. cbn [List.length]. rewrite (IH None Hr).
      cbn [flush List.length]. lia.
    + destruct (ets.T d) as [t |]; [| discriminate].
      destruct const as [c |].
      * rewrite (IH (Some (matmul c t)) Hr). cbn [flush List.length]. lia.
      * rewrite (IH (Some t) Hr). cbn [flush List.length]. lia.
Qed.

Lemma const_runs_bound (l : list ets.t) :
  forall prev,
    const_runs l prev <= List.length (List.filter ets.joint l) + (if prev then 0 else 1).
Proof.
  induction l as [| d r IH]; intros prev; cbn [const_runs List.filter].
  - lia.
  - destruct (ets.joint d); cbn [List.length].
    + specialize (IH false). cbn in IH. lia.
    + specialize (IH true). cbn in IH. destruct prev; lia.
Qed.

(** X11.  The length of the compiled sequence is the number of joints plus
    the number of maximal runs of non-joint elements; it is at most twice
    the number of joints plus one, and at most the original length. *)
Theorem compile_length (S : ETS) :
  wf S = true ->
  exists C, compile S = Ok C /\
    List.length (data C) = joint_count S + const_runs (data S) false /\
    List.length (data C) <= 2 * joint_count S + 1 /\
    List.length (data C) <= List.length (data S).
Proof.
  intros Hwf. eexists. split; [apply compile_value; exact Hwf |]. cbn [data].
  pose proof (fold_consts_length (data S) None Hwf) as Hl.
  pose proof (const_runs_bound (data S) false) as Hb.
  pose proof (fold_consts_length_le (data S) None) as Hle.
  cbn [flush List.length] in Hl, Hle. cbn beta iota in Hb.
  unfold joint_count, joint_elements.
  repeat split; lia.
Qed.

Lemma compile_length_witness :
  exists C, compile rz_tx_ty_rz = Ok C /\
    List.length (data C) = joint_count rz_tx_ty_rz + const_runs (data rz_tx_ty_rz) false /\
    List.length (data C) <= 2 * joint_count rz_tx_ty_rz + 1 /\
    List.length (data C) <= List.length (data rz_tx_ty_rz).
Proof. apply (compile_length rz_tx_ty_rz). reflexivity. Defined.

(** X12.  [compile] changes neither the pose nor the exception of [eval]:
    on the compiled sequence [eval] returns or raises exactly what it does
    on the original, for every argument, including a missing, a short and
    a long coordinate list. *)
Theorem compile_preserves_eval_outcome (S : ETS) :
  wf S = true ->
  exists C, compile S = Ok C /\ forall q u, eval C q u = eval S q u.
Proof.
  intros Hwf. eexists. split; [apply compile_value; exact Hwf |].
  intros q u. apply eval_compiled. exact Hwf.
Qed.

Lemma compile_preserves_eval_outcome_witness :
  exists C, compile rz_tx_ty_rz = Ok C /\
    forall q u, eval C q u = eval rz_tx_ty_rz q u.
Proof. apply (compile_preserves_eval_outcome rz_tx_ty_rz). reflexivity. Defined.

(** ** Slicing *)

Lemma slice_prefix (S : ETS) (k : nat) :
  data (__getitem__slice S None (Some k)) = take k (data S).
Proof. unfold __getitem__slice. cbn [data]. rewrite Nat.sub_0_r. reflexivity. Qed.

Lemma slice_suffix (S : ETS) (a : nat) :
  data (__getitem__slice S (Some a) None) = drop a (data S).
Proof.
  unfold __getitem__slice. cbn [data].
  apply take_ge. rewrite length_drop. lia.
Qed.

Lemma wf_take_drop (l : list ets.t) (k : nat) :
  forallb wf_et l = true ->
  forallb wf_et (take k l) = true /\ forallb wf_et (drop k l) = true.
Proof.
  intros Hwf. rewrite <- (take_drop k l), forallb_app in Hwf.
  apply andb_prop in Hwf. exact Hwf.
Qed.

(** X13.  A slice [S[a:b]] with non-negative bounds holds the elements of S
    at positions a, a+1, ..., up to but excluding min(b, len(S)), in order;
    out-of-range bounds are clamped, never an error. *)
Theorem slice_elements (S : ETS) (a b i : nat) :
  List.length (data (__getitem__slice S (Some a) (Some b))) =
    Nat.min b (List.length (data S)) - Nat.min a (List.length (data S)) /\
  data (__getitem__slice S (Some a) (Some b)) !! i =
    if Nat.ltb (a + i) b then data S !! (a + i) else None.
Proof.
  unfold __getitem__slice. cbn [data]. split.
  - rewrite length_take, length_drop. lia.
  - destruct (Nat.ltb_spec (a + i) b) as [Hlt | Hge].
    + rewrite lookup_take_lt by lia. apply lookup_drop.
    + apply lookup_take_ge. lia.
Qed.

(** X14.  Splitting a chain: for a constructor-built sequence S of rigid
    elements, a cut position k and a coordinate list with one entry per
    joint, [S[:k] * S[k:]] is S again, and the pose of S is the pose of the
    prefix on the first coordinates times the pose of the suffix on the
    rest. *)
Theorem slice_split (S : ETS) (k : nat) (q : list R) (u : string) :
  wf S = true -> rigid S ->
  List.length q = joint_count S ->
  __mul__ (__getitem__slice S None (Some k)) (__getitem__slice S (Some k) None) = S /\
  exists PA PB,
    eval (__getitem__slice S None (Some k))
         (Some (take (joint_count (__getitem__slice S None (Some k))) q)) u = Ok PA /\
    eval (__getitem__slice S (Some k) None)
         (Some (drop (joint_count (__getitem__slice S None (Some k))) q)) u = Ok PB /\
    eval S (Some q) u = Ok (matmul PA PB).
Proof.
  intros Hwf Hrig Hlen.
  assert (Hsplit : __mul__ (__getitem__slice S None (Some k))
                           (__getitem__slice S (Some k) None) = S).
  { unfold __mul__. rewrite slice_prefix, slice_suffix, take_drop.
    destruct S; reflexivity. }
  split; [exact Hsplit |].
  unfold joint_count, joint_elements in *. rewrite slice_prefix.
  destruct (wf_take_drop (data S) k Hwf) as [HwA HwB].
  assert (HrA : Forall rigid_et (take k (data S))) by (apply Forall_take; exact Hrig).
  assert (HrB : Forall rigid_et (drop k (data S))) by (apply Forall_drop; exact Hrig).
  set (c := List.length (List.filter ets.joint (take k (data S)))).
  assert (Hc : c + List.length (List.filter ets.joint (drop k (data S))) = List.length q).
  { rewrite Hlen. unfold c.
    rewrite <- length_app, <- List.filter_app, take_drop. reflexivity. }
  destruct (eval_loop_app (take k (data S)) (take c q) u eye4 HwA) as (PA & EA & Happ).
  { rewrite length_take. fold c. lia. }
  destruct (eval_loop_ok (drop k (data S)) (drop c q) u eye4 HwB) as [PB EB].
  { rewrite length_drop. lia. }
  pose proof (eval_loop_rigid _ _ _ _ _ HwA HrA proper_eye4 EA) as HPA.
  pose proof (eval_loop_rigid _ _ _ _ _ HwB HrB proper_eye4 EB) as HPB.
  exists PA, PB. rewrite !eval_unfold, slice_prefix, slice_suffix.
  split; [rewrite EA; apply SE3_ok, proper_ishom; exact HPA |].
  split; [rewrite EB; apply SE3_ok, proper_ishom; exact HPB |].
  rewrite <- (take_drop k (data S)) at 1. rewrite <- (take_drop c q) at 1.
  rewrite Happ, eval_loop_from by exact HwB. rewrite EB. cbn [bind].
  apply SE3_ok, proper_ishom, proper_matmul; assumption.
Qed.

Lemma slice_split_witness :
  __mul__ (__getitem__slice rz_tx_ty_rz None (Some 2))
          (__getitem__slice rz_tx_ty_rz (Some 2) None) = rz_tx_ty_rz /\
  exists PA PB,
    eval (__getitem__slice rz_tx_ty_rz None (Some 2))
         (Some (take (joint_count (__getitem__slice rz_tx_ty_rz None (Some 2))) [0; 0]%R))
         "rad" = Ok PA /\
    eval (__getitem__slice rz_tx_ty_rz (Some 2) None)
         (Some (drop (joint_count (__getitem__slice rz_tx_ty_rz None (Some 2))) [0; 0]%R))
         "rad" = Ok PB /\
    eval rz_tx_ty_rz (Some [0; 0]%R) "rad" = Ok (matmul PA PB).
Proof.
  apply (slice_split rz_tx_ty_rz 2 [0; 0]%R "rad");
    first [ reflexivity | exact rigid_rz_tx_ty_rz ].
Defined.

(** ** Pop *)

Lemma pop_at (E : ETS) (i : Z) (k : nat) (d : ets.t) :
  (if (i <? 0)%Z then (i + Z.of_nat (List.length (data E)))%Z else i) = Z.of_nat k ->
  data E !! k = Some d ->
  pop E i = Ok (mkETS [d], mkETS (take k (data E) ++ drop (S k) (data E))).
Proof.
  intros Hk Hd. unfold pop. cbn zeta. rewrite Hk.
  pose proof (lookup_lt_Some _ _ _ Hd) as Hlt.
  replace (0 <=? Z.of_nat k)%Z with true by (symmetry; apply Z.leb_le; lia).
  replace (Z.of_nat k <? Z.of_nat (List.length (data E)))%Z with true
    by (symmetry; apply Z.ltb_lt; lia).
  cbn [andb]. rewrite Nat2Z.id, Hd, delete_take_drop. reflexivity.
Qed.

(** X15.  [pop(i)] on a sequence E with an index in range, counted from
    the end when negative, returns the element [E[k]] as a length-one
    sequence and leaves [E[:k] * E[k+1:]]; putting the item back between
    the two parts gives E, and the sequence left is one element shorter. *)
Theorem pop_in_range (E : ETS) (i : Z) :
  (- Z.of_nat (List.length (data E)) <= i < Z.of_nat (List.length (data E)))%Z ->
  exists k item E',
    Z.of_nat k = (if (i <? 0)%Z then (i + Z.of_nat (List.length (data E)))%Z else i) /\
    pop E i = Ok (item, E') /\
    __getitem__ E k = Ok item /\
    E' = __mul__ (__getitem__slice E None (Some k)) (__getitem__slice E (Some (S k)) None) /\
    __mul__ (__mul__ (__getitem__slice E None (Some k)) item)
            (__getitem__slice E (Some (S k)) None) = E /\
    List.length (data E') + 1 = List.length (data E).
Proof.
  intros Hi.
  set (z := if (i <? 0)%Z then (i + Z.of_nat (List.length (data E)))%Z else i).
  assert (Hz : (0 <= z < Z.of_nat (List.length (data E)))%Z).
  { unfold z. destruct (Z.ltb_spec i 0); lia. }
  destruct (lookup_lt_is_Some_2 (data E) (Z.to_nat z)) as [d Hd]; [lia |].
  exists (Z.to_nat z), (mkETS [d]), (mkETS (take (Z.to_nat z) (data E) ++
                                              drop (S (Z.to_nat z)) (data E))).
  split; [lia |].
  split; [apply pop_at; [fold z; lia | exact Hd] |].
  split; [unfold __getitem__; rewrite Hd; reflexivity |].
  unfold __mul__. rewrite slice_prefix, slice_suffix. cbn [data].
  split; [reflexivity |]. split.
  - rewrite <- app_assoc. cbn [app]. rewrite take_drop_middle by exact Hd.
    destruct E; reflexivity.
  - rewrite <- (take_drop_middle _ _ _ Hd) at 3.
    rewrite !length_app. cbn [List.length]. lia.
Qed.

Lemma pop_in_range_witness :
  exists k item S',
    Z.of_nat k = (if (-1 <? 0)%Z
                  then (-1 + Z.of_nat (List.length (data rz_tx_ty_rz)))%Z else (-1)%Z) /\
    pop rz_tx_ty_rz (-1) = Ok (item, S') /\
    __getitem__ rz_tx_ty_rz k = Ok item /\
    S' = __mul__ (__getitem__slice rz_tx_ty_rz None (Some k))
                 (__getitem__slice rz_tx_ty_rz (Some (S k)) None) /\
    __mul__ (__mul__ (__getitem__slice rz_tx_ty_rz None (Some k)) item)
            (__getitem__slice rz_tx_ty_rz (Some (S k)) None) = rz_tx_ty_rz /\
    List.length (data S') + 1 = List.length (data rz_tx_ty_rz).
Proof. apply (pop_in_range rz_tx_ty_rz (-1)). cbn. lia. Defined.

(** X16.  [pop()] with its default index on a non-empty sequence returns
    the last element, and appending the popped item to what is left gives
    the sequence back. *)
Theorem pop_default_round_trip (S : ETS) :
  data S <> [] ->
  exists item S',
    pop S (-1) = Ok (item, S') /\ __mul__ S' item = S /\
    __getitem__ S (List.length (data S) - 1) = Ok item.
Proof.
  intros Hne. destruct S as [l]. cbn [data] in *.
  destruct (exists_last Hne) as (l' & d & ->).
  assert (Hd : (l' ++ [d]) !! List.length l' = Some d) by apply list_lookup_middle, eq_refl.
  exists (mkETS [d]), (mkETS l'). split; [| split].
  - rewrite (pop_at _ _ (List.length l') d); cbn [data].
    + rewrite take_app_length, drop_ge, app_nil_r by (rewrite length_app; cbn; lia).
      reflexivity.
    + rewrite length_app. cbn. lia.
    + exact Hd.
  - reflexivity.
  - unfold __getitem__. cbn [data]. rewrite length_app. cbn [List.length].
    replace (List.length l' + 1 - 1) with (List.length l') by lia.
    rewrite Hd. reflexivity.
Qed.

Lemma pop_default_round_trip_witness :
  exists item S',
    pop rz_tx_ty_rz (-1) = Ok (item, S') /\ __mul__ S' item = rz_tx_ty_rz /\
    __getitem__ rz_tx_ty_rz (List.length (data rz_tx_ty_rz) - 1) = Ok item.
Proof. apply (pop_default_round_trip rz_tx_ty_rz). discriminate. Defined.

(** X17.  [pop(i)] raises when the index is outside the sequence on either
    side: [OverflowError] when the integer does not fit a C [ssize_t],
    [IndexError] otherwise; on the empty sequence it raises for every
    index. *)
Theorem pop_out_of_range (E : ETS) (i : Z) :
  (Z.of_nat (List.length (data E)) <= i \/ i < - Z.of_nat (List.length (data E)))%Z ->
  pop E i = Raise (if ((i <? - 2 ^ 63) || (2 ^ 63 <=? i))%Z
                   then OverflowError else IndexError).
Proof.
  intros Hi. unfold pop. cbn zeta.
  assert (Hout : ((0 <=? (if (i <? 0)%Z
                          then (i + Z.of_nat (List.length (data E)))%Z else i)) &&
                  ((if (i <? 0)%Z
                    then (i + Z.of_nat (List.length (data E)))%Z else i) <?
                   Z.of_nat (List.length (data E))))%Z = false).
  { destruct (Z.ltb_spec i 0) as [Hneg | Hpos].
    - replace (0 <=? i + Z.of_nat (List.length (data E)))%Z with false
        by (symmetry; apply Z.leb_gt; lia).
      reflexivity.
    - replace (i <? Z.of_nat (List.length (data E)))%Z with false
        by (symmetry; apply Z.ltb_ge; lia).
      apply andb_false_r. }
  rewrite Hout.
  destruct ((i <? - 2 ^ 63) || (2 ^ 63 <=? i))%Z; reflexivity.
Qed.

Lemma pop_out_of_range_witness :
  pop ETS_empty (-1) = Raise IndexError /\
  pop rz_joint (2 ^ 63) = Raise OverflowError.
Proof.
  split.
  - apply (pop_out_of_range ETS_empty (-1)). cbn. lia.
  - apply (pop_out_of_range rz_joint (2 ^ 63)). cbn. lia.
Defined.

(** ** The Hessian loops, continued *)

Lemma cross_self (a : Vec3) : cross a a = vzero.
Proof. destruct a. unfold cross, vzero. cbn. f_equal; ring. Qed.

Lemma cross_zero_l (a : Vec3) : cross vzero a = vzero.
Proof. destruct a. unfold cross, vzero. cbn. f_equal; ring. Qed.

(** X18.  For a Jacobian with n columns the loops of [hessian0] return, and
    on the diagonal the linear block is [J0[3:, j] x J0[:3, j]] and the
    angular block is zero. *)
Theorem hessian0_diagonal (J0 : list Col6) (nj : nat) :
  List.length J0 = nj ->
  exists H, hessian0_loop nj J0 = Ok H /\
    forall j cj, J0 !! j = Some cj ->
      H_get H j j = Ok (mkC (cross (ang cj) (lin cj)) vzero).
Proof.
  intros Hlen.
  destruct (hessian0_loop_inv J0 nj Hlen) as (H & E & I1 & I2 & I3).
  exists H. split; [exact E |]. intros j cj Hcj.
  pose proof (lookup_lt_Some _ _ _ Hcj) as Hj. rewrite Hlen in Hj.
  destruct (I3 j j cj cj Logic.I (Nat.le_refl j) Hj Hcj Hcj) as [Ed _].
  rewrite cross_self in Ed. exact Ed.
Qed.

Lemma hessian0_diagonal_witness :
  exists H, hessian0_loop 2 J0_zx = Ok H /\
    forall j cj, J0_zx !! j = Some cj ->
      H_get H j j = Ok (mkC (cross (ang cj) (lin cj)) vzero).
Proof. apply (hessian0_diagonal J0_zx 2). reflexivity. Defined.

(** X19.  A column of the Jacobian with zero angular part (a prismatic
    joint) contributes nothing: for such a column j, every entry
    [H[:, i, j]] and [H[:, j, i]] with i >= j is zero. *)
Theorem hessian0_prismatic_column (J0 : list Col6) (nj : nat) :
  List.length J0 = nj ->
  exists H, hessian0_loop nj J0 = Ok H /\
    forall j i cj, J0 !! j = Some cj -> ang cj = vzero -> j <= i -> i < nj ->
      H_get H i j = Ok czero /\ H_get H j i = Ok czero.
Proof.
  intros Hlen.
  destruct (hessian0_loop_inv J0 nj Hlen) as (H & E & I1 & I2 & I3).
  exists H. split; [exact E |]. intros j i cj Hcj Hz Hji Hi.
  destruct (lookup_lt_is_Some_2 J0 i) as [ci Hci]; [lia |].
  destruct (I3 j i cj ci Logic.I Hji Hi Hcj Hci) as [Elow Eup].
  rewrite Hz in Elow, Eup. rewrite !cross_zero_l in Elow.
  rewrite cross_zero_l in Eup.
  split; [exact Elow |].
  destruct (decide (j = i)) as [-> | Hne]; [exact Elow |].
  destruct Eup as (c & Ec & Hl); [lia |].
  pose proof (I2 j i c ltac:(lia) Hi Ec) as Ha.
  destruct c as [l a]. cbn [lin ang] in Hl, Ha. subst l a. exact Ec.
Qed.

Lemma hessian0_prismatic_column_witness :
  exists H, hessian0_loop 2 J0_z_tx = Ok H /\
    forall j i cj, J0_z_tx !! j = Some cj -> ang cj = vzero -> j <= i -> i < 2 ->
      H_get H i j = Ok czero /\ H_get H j i = Ok czero.
Proof. apply (hessian0_prismatic_column J0_z_tx 2). reflexivity. Defined.

(** ** Methods that cannot return *)

(** X20.  [hessian0] raises on every input: [TypeError] from the joint
    counter when the sequence has a joint; otherwise [NameError] when a
    Jacobian is passed, [AttributeError] when neither a Jacobian nor
    coordinates are passed, [ValueError] when the coordinate list is not
    empty, and [UnboundLocalError] from [jacob0] when it is empty. *)
Theorem hessian0_exceptions inv (S : ETS) (q : option (list R))
    (J0 : option (list Col6)) :
  hessian0 inv S q J0 =
    Raise (if negb (Nat.eqb (joint_count S) 0) then TypeError
           else match J0, q with
                | Some _, _ => NameError
                | None, None => AttributeError
                | None, Some [] => UnboundLocalError
                | None, Some (_ :: _) => ValueError
                end).
Proof.
  unfold hessian0. rewrite n_value.
  destruct (Nat.eqb (joint_count S) 0); cbn [bind negb]; [| reflexivity].
  destruct J0 as [J |]; [reflexivity |].
  destruct q as [[| x v] |]; reflexivity.
Qed.

(** X21.  [jacobe] raises on every input: what [eval] raises when no pose
    is passed and [eval] fails, and otherwise [UnboundLocalError] from
    [jacob0]. *)
Theorem jacobe_exceptions inv (S : ETS) (q : option (list R)) (Tm : option M44) :
  jacobe inv S q Tm =
    match Tm with
    | Some _ => Raise UnboundLocalError
    | None =>
        match eval S q "rad" with
        | Ok _ => Raise UnboundLocalError
        | Raise e => Raise e
        end
    end.
Proof.
  unfold jacobe. destruct Tm as [t |]; [reflexivity |].
  destruct (eval S q "rad"); reflexivity.
Qed.

(** ** The Jacobian loop and constant folding *)

Lemma jacob0_loop_cons_ext inv (et : ETS) (X Y : list ETS) (q : list R) (Tm : M44) :
  (forall U j J, jacob0_loop inv X q Tm U j J = jacob0_loop inv Y q Tm U j J) ->
  forall U j J,
    jacob0_loop inv (et :: X) q Tm U j J = jacob0_loop inv (et :: Y) q Tm U j J.
Proof.
  intros Hext U j J. cbn [jacob0_loop].
  destruct (isjoint et) as [[|] | ex]; cbn [bind]; try reflexivity.
  - destruct (axis_func et) as [fo | ex]; cbn [bind]; [| reflexivity].
    destruct (index q j) as [qj | ex]; cbn [bind]; [| reflexivity].
    destruct fo as [f |]; cbn [bind]; [| reflexivity].
    destruct (inv (matmul U (f qj))) as [Ui | ex]; cbn [bind]; [| reflexivity].
    destruct (axis et) as [ax | ex]; cbn [bind]; [| reflexivity].
    destruct (jacob0_column ax (matmul U (f qj)) (matmul Ui Tm) j J) as [J' | ex];
      cbn [bind]; [| reflexivity].
    apply Hext.
  - destruct (T et None) as [A | ex]; cbn [bind]; [| reflexivity].
    destruct (matmul_obj U A) as [U' | ex]; cbn [bind]; [| reflexivity].
    apply Hext.
Qed.

Lemma jacob0_loop_const inv (c : M44) (X : list ETS) q Tm U j J :
  jacob0_loop inv (mkETS [const_et c] :: X) q Tm U j J =
  jacob0_loop inv X q Tm (matmul U c) j J.
Proof. reflexivity. Qed.

Lemma jacob0_loop_fold_consts inv (l : list ets.t) (q : list R) (Tm : M44) :
  forall const U j J,
    forallb wf_et l = true ->
    jacob0_loop inv (map (fun d => mkETS [d]) (fold_consts l const)) q Tm U j J =
    jacob0_loop inv (map (fun d => mkETS [d]) l) q Tm
      (match const with Some c => matmul U c | None => U end) j J.
Proof.
  induction l as [| d r IH]; intros const U j J Hwf.
  - destruct const; reflexivity.
  - cbn [forallb] in Hwf. apply andb_prop in Hwf as [Hd Hr].
    rewrite fold_consts_cons. unfold wf_et in Hd.
    destruct (ets.joint d) eqn:Hj.
    + rewrite map_app. cbn [map].
      destruct const as [c |]; cbn [flush app map].
      * rewrite jacob0_loop_const.
        apply jacob0_loop_cons_ext. intros U' j' J'. apply (IH None). exact Hr.
      * apply jacob0_loop_cons_ext. intros U' j' J'. apply (IH None). exact Hr.
    + destruct (ets.T d) as [t |] eqn:Ht; [| discriminate].
      assert (Hstep : forall U',
        jacob0_loop inv (map (fun d => mkETS [d]) (d :: r)) q Tm U' j J =
        jacob0_loop inv (map (fun d => mkETS [d]) r) q Tm (matmul U' t) j J).
      { intros U'. cbn [map jacob0_loop]. unfold isjoint, T, isjoint, data0.
        cbn [data bind]. rewrite Hj. cbn [bind]. rewrite Ht. reflexivity. }
      rewrite Hstep. destruct const as [c |].
      * rewrite IH by exact Hr. rewrite matmul_assoc. reflexivity.
      * rewrite IH by exact Hr. reflexivity.
Qed.

(** X22.  Constant folding does not change the Jacobian loop: run on the
    compiled sequence, the column loop of [jacob0] returns or raises
    exactly what it does on the original sequence, for every coordinate
    array, end pose and inverse routine. *)
Theorem jacob0_loop_compile inv (S : ETS) :
  wf S = true ->
  exists C, compile S = Ok C /\
    forall q Tm J,
      jacob0_loop inv (iter C) q Tm eye4 0 J = jacob0_loop inv (iter S) q Tm eye4 0 J.
Proof.
  intros Hwf. eexists. split; [apply compile_value; exact Hwf |].
  intros q Tm J. unfold iter. cbn [data].
  apply (jacob0_loop_fold_consts inv (data S) q Tm None). exact Hwf.
Qed.

Lemma jacob0_loop_compile_witness :
  exists C, compile rz_tx_ty_rz = Ok C /\
    forall q Tm J,
      jacob0_loop (fun M => Ok M) (iter C) q Tm eye4 0 J =
      jacob0_loop (fun M => Ok M) (iter rz_tx_ty_rz) q Tm eye4 0 J.
Proof. apply (jacob0_loop_compile (fun M => Ok M) rz_tx_ty_rz). reflexivity. Defined.

(** ** Kinds of elements *)

Lemma init_callable_element (f : R -> M44) (ax : string) (v : option R)
    (u : string) (S : ETS) :
  __init__ (PyCallable f) (Some ax) v u = Ok S ->
  exists e, S = mkETS [e] /\ ets.axis e = Some ax /\
            ets.joint e = match v with Some _ => false | None => true end.
Proof.
  intros H. cbn in H. destruct v as [v |]; cbn in H.
  - unfold getunit in H. destruct (String.eqb u "rad"); cbn in H;
      [| destruct (String.eqb u "deg"); cbn in H; [| discriminate]];
      inversion H; eexists; repeat split.
  - destruct (String.eqb u "rad"); cbn in H; inversion H. eexists; repeat split.
Qed.

(** X23.  Every element that a factory builds has exactly one kind: the
    results of [rx], [ry], [rz] are revolute, those of [tx], [ty], [tz]
    prismatic, that of [_CONST] constant, whether the element is a joint or
    carries a constant; it is a joint exactly when no [eta] was given. *)
Theorem factory_kinds (v : option R) (u : string) (M : M44) (S : ETS) :
  (rx v u = Ok S \/ ry v u = Ok S \/ rz v u = Ok S ->
     isrevolute S = Ok true /\ isprismatic S = Ok false /\ isconstant S = Ok false /\
     isjoint S = Ok (match v with Some _ => false | None => true end)) /\
  (tx v = Ok S \/ ty v = Ok S \/ tz v = Ok S ->
     isrevolute S = Ok false /\ isprismatic S = Ok true /\ isconstant S = Ok false /\
     isjoint S = Ok (match v with Some _ => false | None => true end)) /\
  (_CONST M = Ok S ->
     isrevolute S = Ok false /\ isprismatic S = Ok false /\ isconstant S = Ok true /\
     isjoint S = Ok false).
Proof.
  assert (Hk : forall f ax,
    __init__ (PyCallable f) (Some ax) v u = Ok S \/
    __init__ (PyCallable f) (Some ax) v "rad" = Ok S ->
    isrevolute S = axis0_is (mkETS [ets.mk None None (Some ax) false None]) "R" /\
    isprismatic S = axis0_is (mkETS [ets.mk None None (Some ax) false None]) "t" /\
    isconstant S = axis0_is (mkETS [ets.mk None None (Some ax) false None]) "C" /\
    isjoint S = Ok (match v with Some _ => false | None => true end)).
  { intros f ax [H | H]; apply init_callable_element in H as (e & -> & Hax & Hj);
      unfold isrevolute, isprismatic, isconstant, isjoint, axis0_is, axis, data0;
      cbn [data bind ets.axis]; rewrite Hax, Hj; repeat split. }
  split; [| split].
  - intros [H | [H | H]]; unfold rx, ry, rz in H;
      destruct (Hk _ _ (or_introl H)) as (-> & -> & -> & ->); repeat split.
  - intros [H | [H | H]]; unfold tx, ty, tz in H;
      destruct (Hk _ _ (or_intror H)) as (-> & -> & -> & ->); repeat split.
  - intros H. inversion H. repeat split.
Qed.


(** ** The empty sequence *)

(** X24.  On a sequence without elements every accessor that reads
    [data[0]] raises [IndexError], as do [T] and indexing at any position;
    [eval] returns the identity whatever the coordinates, [compile] returns
    the empty sequence, and [joints], [config] and [n] return no index, the
    empty string and 0. *)
Theorem empty_sequence (S : ETS) (q : option (list R)) (u : string) (i : nat) :
  data S = [] ->
  eta S = Raise IndexError /\ axis S = Raise IndexError /\
  axis_func S = Raise IndexError /\ isjoint S = Raise IndexError /\
  isrevolute S = Raise IndexError /\ isprismatic S = Raise IndexError /\
  isconstant S = Raise IndexError /\ T S None = Raise IndexError /\
  __getitem__ S i = Raise IndexError /\
  eval S q u = Ok eye4 /\ compile S = Ok ETS_empty /\
  joints S = Ok [] /\ config S = Ok "" /\ n S = Ok 0.
Proof.
  destruct S as [l]. cbn [data]. intros ->.
  repeat split; try reflexivity.
  unfold eval. destruct q; cbn [getvector bind iter data map eval_loop];
    apply SE3_ok, ishom_eye4.
Qed.

Lemma empty_sequence_witness :
  eta ETS_empty = Raise IndexError /\ axis ETS_empty = Raise IndexError /\
  axis_func ETS_empty = Raise IndexError /\ isjoint ETS_empty = Raise IndexError /\
  isrevolute ETS_empty = Raise IndexError /\ isprismatic ETS_empty = Raise IndexError /\
  isconstant ETS_empty = Raise IndexError /\ T ETS_empty None = Raise IndexError /\
  __getitem__ ETS_empty 0 = Raise IndexError /\
  eval ETS_empty (Some [1%R]) "rad" = Ok eye4 /\ compile ETS_empty = Ok ETS_empty /\
  joints ETS_empty = Ok [] /\ config ETS_empty = Ok "" /\ n ETS_empty = Ok 0.
Proof. apply (empty_sequence ETS_empty (Some [1%R]) "rad" 0). reflexivity. Defined.

(** ** The shape of the Jacobian *)

Lemma set_lin_length (J J' : list Col6) (j : nat) (v : Vec3) :
  set_lin J j v = Ok J' -> List.length J' = List.length J.
Proof.
  unfold set_lin, index. destruct (J !! j); cbn [bind]; intros H; inversion H.
  apply length_insert.
Qed.

Lemma set_ang_length (J J' : list Col6) (j : nat) (v : Vec3) :
  set_ang J j v = Ok J' -> List.length J' = List.length J.
Proof.
  unfold set_ang, index. destruct (J !! j); cbn [bind]; intros H; inversion H.
  apply length_insert.
Qed.

Lemma jacob0_column_length (ax : option string) (U Tu : M44) (j : nat)
    (J J' : list Col6) :
  jacob0_column ax U Tu j J = Ok J' -> List.length J' = List.length J.
Proof.
  unfold jacob0_column.
  repeat match goal with
         | |- context [if ?b then _ else _] => destruct b
         end;
    try (intros H; inversion H; reflexivity);
    match goal with
    | |- context [set_lin J j ?v] =>
        destruct (set_lin J j v) as [J1 |] eqn:E1; cbn [bind];
        [| discriminate]
    end;
    intros E2; apply set_ang_length in E2; apply set_lin_length in E1; congruence.
Qed.

(** X25.  The column loop of [jacob0] never changes the number of columns
    of the array it fills: whenever it returns, the array returned has as
    many columns as the array it was given. *)
Theorem jacob0_loop_shape inv (its : list ETS) (q : list R) (Tm : M44) :
  forall U j J J',
    jacob0_loop inv its q Tm U j J = Ok J' -> List.length J' = List.length J.
Proof.
  induction its as [| et rest IH]; intros U j J J' H.
  - inversion H. reflexivity.
  - cbn [jacob0_loop] in H.
    destruct (isjoint et) as [[|] | ex]; cbn [bind] in H; [| | discriminate].
    + destruct (axis_func et) as [fo | ex]; cbn [bind] in H; [| discriminate].
      destruct (index q j) as [qj | ex]; cbn [bind] in H; [| discriminate].
      destruct fo as [f |]; cbn [bind] in H; [| discriminate].
      destruct (inv (matmul U (f qj))) as [Ui | ex]; cbn [bind] in H; [| discriminate].
      destruct (axis et) as [ax | ex]; cbn [bind] in H; [| discriminate].
      destruct (jacob0_column ax (matmul U (f qj)) (matmul Ui Tm) j J) as [J1 | ex] eqn:Ec;
        cbn [bind] in H; [| discriminate].
      apply IH in H. apply jacob0_column_length in Ec. congruence.
    + destruct (T et None) as [A | ex]; cbn [bind] in H; [| discriminate].
      destruct (matmul_obj U A) as [U' | ex]; cbn [bind] in H; [| discriminate].
      apply IH in H. exact H.
Qed.

Lemma jacob0_loop_shape_witness :
  exists J',
    jacob0_loop (fun M => Ok M) (iter rz_joint) [0%R] eye4 eye4 0 (zeros6 1) = Ok J' /\
    List.length J' = List.length (zeros6 1).
Proof.
  eexists. split; [reflexivity |].
  apply (jacob0_loop_shape (fun M => Ok M) (iter rz_joint) [0%R] eye4 eye4 0).
  reflexivity.
Defined.
